(** * svelte-image: the markup rewriting engine of [src/main.js]

    A shallow embedding of the preprocessor's rewrite pipeline
    (classification, path resolution, variant generation, srcset
    formatting and text patching) together with the properties the
    specification states about it.

    Conventions of the embedding:
    - JavaScript strings are [string]s; one [ascii] stands for one code
      unit, so [String.length] is the [.length] of the source.  Case
      folding is the ASCII part of [toLowerCase].
    - JavaScript numbers that the code uses as integers (text positions,
      pixel sizes, byte sizes) are [Z].
    - An [async] function is a computation in the monad [M]: a state
      transformer over the outside world that either returns a value or
      throws (a rejected promise).  [await] is the monad's bind.
    - Everything that main.js [require]s ([fs], [path], [sharp], [axios],
      [crypto], [svelte/compiler], potrace, svgo, the console) is a
      collaborator behind the interface [Env]; the theorems hold for every
      implementation of it, and [Posix] below is a small concrete one used
      to run the code on explicit inputs. *)

From Stdlib Require Import ZArith Ascii String DecimalString Lia.
From Stdlib Require DecimalPos DecimalZ.
From stdpp Require Import base list strings gmap.

Local Open Scope Z_scope.

(** ** JavaScript string primitives used by main.js *)

Module Js.

Definition len (s : string) : Z := Z.of_nat (String.length s).

Fixpoint take (n : nat) (s : string) : string :=
  match n, s with
  | S n', String c s' => String c (take n' s')
  | _, _ => ""
  end.

Fixpoint drop (n : nat) (s : string) : string :=
  match n, s with
  | S n', String _ s' => drop n' s'
  | _, _ => s
  end.

(** [String.prototype.substr(start, length)]: a negative [start] counts
    from the end of the string, a missing [length] means "to the end",
    and both are clamped to the string. *)
Definition substr (s : string) (start : Z) (length : option Z) : string :=
  let size := len s in
  let intStart :=
    if start <? 0 then Z.max (size + start) 0 else Z.min start size in
  let intLength :=
    match length with
    | None => size
    | Some l => Z.min (Z.max l 0) size
    end in
  let intEnd := Z.min (intStart + intLength) size in
  take (Z.to_nat (intEnd - intStart)) (drop (Z.to_nat intStart) s).

(** [s.startsWith(p)] *)
Fixpoint startsWith (p s : string) : bool :=
  match p, s with
  | EmptyString, _ => true
  | String a p', String b s' => if Ascii.eqb a b then startsWith p' s' else false
  | String _ _, EmptyString => false
  end.

(** [s.includes(p)] *)
Fixpoint includes (p s : string) : bool :=
  startsWith p s ||
  match s with
  | EmptyString => false
  | String _ s' => includes p s'
  end.

(** [s.replace(pat, by)] with a string pattern: only the first
    occurrence is replaced.  (The replacement strings of main.js hold
    no [$], so no replacement pattern is expanded.) *)
Fixpoint replace (pat by_ s : string) : string :=
  if startsWith pat s then by_ +:+ drop (String.length pat) s
  else match s with
       | EmptyString => ""
       | String c s' => String c (replace pat by_ s')
       end.

(** [s.replace(new RegExp("\\" + c, "g"), by)]: every occurrence of the
    single character [c] is replaced. *)
Fixpoint replaceAllChar (c : ascii) (by_ : string) (s : string) : string :=
  match s with
  | EmptyString => ""
  | String a s' =>
      (if Ascii.eqb a c then by_ else String a "") +:+ replaceAllChar c by_ s'
  end.

(** [s.split(c)] for a one-character separator: never empty. *)
Fixpoint split (c : ascii) (s : string) : list string :=
  match s with
  | EmptyString => [""]
  | String a s' =>
      if Ascii.eqb a c then "" :: split c s'
      else match split c s' with
           | seg :: segs => String a seg :: segs
           | [] => [String a ""]
           end
  end.

(** The ASCII part of [toLowerCase]. *)
Definition lowerChar (a : ascii) : ascii :=
  let n := nat_of_ascii a in
  if ((65 <=? n) && (n <=? 90))%nat then ascii_of_nat (n + 32) else a.

Fixpoint toLowerCase (s : string) : string :=
  match s with
  | EmptyString => ""
  | String a s' => String (lowerChar a) (toLowerCase s')
  end.

(** [arr.join(sep)] *)
Fixpoint join (sep : string) (l : list string) : string :=
  match l with
  | [] => ""
  | [x] => x
  | x :: rest => x +:+ sep +:+ join sep rest
  end.

(** [`${n}`] for an integer-valued number. *)
Definition showZ (n : Z) : string := NilZero.string_of_int (Z.to_int n).

End Js.

(** ** The Text Patcher: [insert] (main.js, lines 301-307) *)

(** The pair [{content, offset}]: the text as edited so far, and by how
    much the positions of the original have moved in it. *)
Module Edited.
Record t := { content : string; offset : Z }.
End Edited.
Abbreviation Edited := Edited.t.

Definition insert (content value : string) (start end_ offset : Z) : Edited :=
  {| Edited.content :=
       Js.substr content 0 (Some (start + offset)) +:+ value +:+
       Js.substr content (end_ + offset) None;
     Edited.offset := offset + Js.len value - (end_ - start) |}.

(** An edit in the coordinates of the original text. *)
Module Edit.
Record t := { start : Z; end_ : Z; replacement : string }.
End Edit.
Abbreviation EditOperation := Edit.t.

(** The reducer of [replaceImages] restricted to the text: every edit is
    spliced into the text produced so far, at its original position moved
    by the accumulated offset. *)
Definition applyEdits (original : string) (edits : list EditOperation) : Edited :=
  fold_left
    (fun acc e =>
       insert (Edited.content acc) (Edit.replacement e) (Edit.start e) (Edit.end_ e)
         (Edited.offset acc))
    edits {| Edited.content := original; Edited.offset := 0 |}.

(** Edits in ascending order of [start], none overlapping, all inside a
    text of [size] characters; [lo] is where the previous edit ended. *)
Fixpoint edits_sorted (lo : Z) (size : Z) (edits : list EditOperation) : Prop :=
  match edits with
  | [] => lo <= size
  | e :: rest =>
      lo <= Edit.start e /\ Edit.start e <= Edit.end_ e /\
      edits_sorted (Edit.end_ e) size rest
  end.

(** The change of length caused by a list of edits. *)
Definition delta (edits : list EditOperation) : Z :=
  foldr
    (fun e acc => (Js.len (Edit.replacement e) - (Edit.end_ e - Edit.start e)) + acc)
    0 edits.

(** The text the specification describes: the untouched pieces of the
    original between the edited ranges, with the replacements in between. *)
Fixpoint spliced (lo : Z) (original : string) (edits : list EditOperation) : string :=
  match edits with
  | [] => Js.drop (Z.to_nat lo) original
  | e :: rest =>
      Js.take (Z.to_nat (Edit.start e - lo)) (Js.drop (Z.to_nat lo) original)
      +:+ Edit.replacement e +:+ spliced (Edit.end_ e) original rest
  end.

(** ** Computations: state of the outside world, and exceptions *)

Inductive result (A : Type) : Type :=
| Ok (a : A)
| Throw (e : string).
Arguments Ok {A} a.
Arguments Throw {A} e.

Definition M (W A : Type) : Type := W -> result A * W.

Section Monad.
Context {W : Type}.

Definition ret {A} (a : A) : M W A := fun w => (Ok a, w).

Definition throw {A} (e : string) : M W A := fun w => (Throw e, w).

(** [await m] followed by [k]: a rejection of [m] is the rejection of
    the whole; the effects [m] had before it threw stay. *)
Definition bind {A B} (m : M W A) (k : A -> M W B) : M W B :=
  fun w =>
    match m w with
    | (Ok a, w') => k a w'
    | (Throw e, w') => (Throw e, w')
    end.

(** [try { m } catch (e) { h e }], and [m.catch(h)] on a promise. *)
Definition try_catch {A} (m : M W A) (h : string -> M W A) : M W A :=
  fun w =>
    match m w with
    | (Ok a, w') => (Ok a, w')
    | (Throw e, w') => h e w'
    end.

(** A pure value or exception, inside a computation. *)
Definition lift {A} (r : result A) : M W A := fun w => (r, w).

(** Reading the world, and changing it without failing. *)
Definition gets {A} (f : W -> A) : M W A := fun w => (Ok (f w), w).
Definition modify (f : W -> W) : M W unit := fun w => (Ok tt, f w).

(** [Promise.all(l.map(f))] and [for]-like traversals, left to right. *)
Fixpoint mapM {A B} (f : A -> M W B) (l : list A) : M W (list B) :=
  match l with
  | [] => ret []
  | x :: rest =>
      bind (f x) (fun y => bind (mapM f rest) (fun ys => ret (y :: ys)))
  end.

(** [l.reduce(async (acc, x) => ..., init)] where the callback awaits
    [acc] first. *)
Fixpoint foldM {A B} (f : A -> B -> M W A) (l : list B) (acc : A) : M W A :=
  match l with
  | [] => ret acc
  | x :: rest => bind (f acc x) (foldM f rest)
  end.
End Monad.

Notation "'let*' x ':=' m 'in' k" := (bind m (fun x => k))
  (at level 10, x pattern, m at level 100, k at level 200).
Notation "m ';;;' k" := (bind m (fun _ => k))
  (at level 100, k at level 200, right associativity).

(** ** The data model *)

(** An attribute value descriptor of the parsed markup: [{type, data,
    start, end}].  The descriptor [{}] that [getSrc] makes up has no field
    at all: its [type] and [data] are [None] (undefined); its positions are
    never read, because the code reads them only after [data] was found
    non-blank. *)
Module Value.
Record t := { type : option string; data : option string; start : Z; end_ : Z }.
Definition empty : t := {| type := None; data := None; start := 0; end_ := 0 |}.
End Value.

(** The [value] of an attribute: [true] for an attribute without a value
    ([<img src>]), otherwise an array of descriptors. *)
Inductive AttrValue :=
| ValTrue
| ValList (l : list Value.t).

Module Attribute.
Record t := { name : string; value : AttrValue }.
End Attribute.

(** An object visited by the tree walker.  Only [type], [name] and
    [attributes] are read. *)
Module Node.
Record t := {
  type : option string;
  name : option string;
  attributes : option (list Attribute.t)
}.
End Node.

(** [sharp(..).metadata()]; [size] is only there for some inputs. *)
Module Meta.
Record t := { width : Z; height : Z; size : option Z }.
End Meta.

(** What [toFile] resolves with. *)
Module Info.
Record t := { width : Z; height : Z }.
End Info.

(** One entry of the VariantSet that [createSizes] returns:
    [{...meta, ...info, size, filename}]. *)
Module Variant.
Record t := { width : Z; height : Z; size : Z; filename : string }.
End Variant.

Record Paths := {
  inPath : string;
  outDir : string;
  outPath : string;
  outUrl : string
}.

Record ResizePaths := {
  r_outPath : string;
  r_outUrl : string;
  r_outPathWebp : string
}.

(** The result of [getProcessingPathsForNode]: [{willNotProcess: true,
    reason}] or [{willNotProcess: false, paths}]. *)
Inductive Decision :=
| Skip (reason : string)
| Process (paths : Paths).

(** The module-level [options] object. *)
Record Options := {
  optimizeAll : bool;
  imgTagExtensions : list string;
  componentExtensions : list string;
  inlineBelow : Z;
  tagName : string;
  sizes : list Z;
  breakpoints : list Z;
  outputDir : string;
  publicDir : string;
  sourceDir : string;
  placeholder : string;
  webp : bool;
  traceSize : option Z;
  optimizeRemote : bool
}.

Definition defaults : Options := {|
  optimizeAll := true;
  imgTagExtensions := ["jpg"; "jpeg"; "png"];
  componentExtensions := [];
  inlineBelow := 10000;
  tagName := "Image";
  sizes := [400; 800; 1200];
  breakpoints := [375; 768; 1024];
  outputDir := "g/";
  publicDir := "./static/";
  sourceDir := "./src/";
  placeholder := "trace";
  webp := true;
  traceSize := None;
  optimizeRemote := true
|}.

(** ** The collaborators

    Everything main.js imports.  Operations that touch the outside world
    are computations over the world [W]; [fs.existsSync] and the console
    never throw. *)
Class Env (W : Type) := {
  (* path *)
  path_sep : ascii;
  path_resolve : list string -> string;
  path_join : list string -> string;
  path_basename : string -> option string -> string;
  path_extname : string -> string;
  path_dirname : string -> string;
  path_relative : string -> string -> string;
  (* fs *)
  fs_existsSync : string -> W -> bool;
  fs_readFileSync : string -> M W string;
  fs_writeFileSync : string -> string -> M W unit;
  fs_statSync_size : string -> M W Z;
  fs_readdirSync : string -> M W (list string);
  fs_mkdirSync : string -> M W unit;
  (* crypto: createHash("sha1").update(url).digest("hex") *)
  sha1_hex : string -> string;
  (* axios: the content-type header of a HEAD request, and a GET piped
     into a file until [finish] or [error] *)
  axios_head : string -> M W (option string);
  axios_download : string -> string -> M W unit;
  (* sharp *)
  sharp_metadata : string -> M W Meta.t;
  sharp_resize_toBuffer : string -> option Z -> M W string;
  sharp_resize_webp_toFile : string -> Z -> string -> M W unit;
  sharp_resize_toFile : string -> Z -> string -> M W Info.t;
  sharp_toFile : string -> string -> M W unit;
  buffer_toString_base64 : string -> string;
  (* potrace and svgo *)
  potrace_trace : string -> M W string;
  svgo_optimize : string -> M W string;
  (* svelte/compiler: [parse] returns a tree or throws; [walk] calls
     [enter] on the objects of the tree, in this order *)
  Ast : Type;
  svelte_parse : string -> result Ast;
  svelte_walk : option Ast -> list Node.t;
  (* console.error and console.log *)
  console_error : string -> W -> W;
  (* new RegExp(`${sourceDir}[^node_modules]*`).test(parentDir) *)
  sourceDir_regexp_test : string -> string -> bool;
  (* `${(1 / (width / height)) * 100}`, a floating point number *)
  ratio_percent : Z -> Z -> string
}.

(** ** JavaScript values: truthiness, destructuring, [Math.min] *)

(** [`${x}`] where [x] may be [undefined]. *)
Definition showOptZ (x : option Z) : string :=
  match x with
  | Some n => Js.showZ n
  | None => "undefined"
  end.

Definition showOptString (x : option string) : string :=
  match x with
  | Some s => s
  | None => "undefined"
  end.

(** A string that is neither [undefined] nor empty. *)
Definition nonBlank (x : option string) : option string :=
  match x with
  | Some "" => None
  | other => other
  end.

(** [x === s] for a possibly undefined [x]. *)
Definition is_string (x : option string) (s : string) : bool :=
  match x with
  | Some y => String.eqb y s
  | None => false
  end.

(** [arr.includes(x)] on an array of strings. *)
Definition includes_string (arr : list string) (x : string) : bool :=
  existsb (String.eqb x) arr.

(** [Math.min(...l)]; [None] is [Infinity], the minimum of nothing. *)
Definition Math_min (l : list Z) : option Z :=
  match l with
  | [] => None
  | x :: rest => Some (foldr Z.min x rest)
  end.

(** [smallest > w] where [smallest] may be [Infinity]. *)
Definition gt_number (smallest : option Z) (w : Z) : bool :=
  match smallest with
  | None => true
  | Some s => w <? s
  end.

(** [const [value] = v] followed by a property access on [value]:
    [true] is not iterable, and the first element of an empty array is
    [undefined], whose properties cannot be read. *)
Definition firstValue (v : AttrValue) : result Value.t :=
  match v with
  | ValTrue => Throw "TypeError: true is not iterable"
  | ValList [] => Throw "TypeError: Cannot read properties of undefined"
  | ValList (x :: _) => Ok x
  end.

(** [arr.filter(Boolean)] on an array of objects and [null]s. *)
Definition filterBoolean {A} (l : list (option A)) : list A := omap id l.

(** ** main.js *)

Section Main.
Context {W : Type} {E : Env W}.
Variable options : Options.

(** [IS_EXTERNAL = /^(https?:)?\/\//i], as [IS_EXTERNAL.test(s)]. *)
Definition IS_EXTERNAL (s : string) : bool :=
  let l := Js.toLowerCase s in
  Js.startsWith "//" l || Js.startsWith "http://" l || Js.startsWith "https://" l.

(** [null] is [None].  The test [fs.existsSync(path)] of line 79 is given
    the [path] module instead of a file name and is never true. *)
Definition downloadImage (url folder : string) : M W (option string) :=
  let hash := sha1_hex url in
  let* names := fs_readdirSync folder in
  let existing := List.find (Js.startsWith hash) names in
  match nonBlank existing with
  | Some e => ret (Some e)
  | None =>
      let* contentType := axios_head url in
      match contentType with
      | None => throw "TypeError: Cannot read properties of undefined (reading 'split')"
      | Some ct =>
          let parts := Js.split "/" ct in
          let type := parts !! 0%nat in
          let ext := parts !! 1%nat in
          if negb (is_string type "image") then ret None
          else
            let filename := hash +:+ "." +:+ showOptString ext in
            let saveTo := path_resolve [folder; filename] in
            axios_download url saveTo ;;;
            ret (Some filename)
      end
  end.

Definition getBasename (p : string) : string :=
  path_basename p (Some (path_extname p)).

Definition getRelativePath (p : string) : string :=
  path_relative (sourceDir options) p.

Definition getFilenameWithSize (p : string) (size : Z) : string :=
  getBasename p +:+ "-" +:+ Js.showZ size +:+ path_extname p.

Definition getWebpFilenameWithSize (p : string) (size : Z) : string :=
  getBasename p +:+ "-" +:+ Js.showZ size +:+ ".webp".

Definition getPathsObject (nodeSrc : string) : Paths :=
  let inPath := nodeSrc in
  let outDir := path_resolve [publicDir options; outputDir options] in
  let filename := path_basename inPath None in
  let outUrl := path_join [outputDir options; filename] in
  {| inPath := inPath;
     outDir := outDir;
     outPath := path_join [outDir; filename];
     outUrl := outUrl |}.

(** The closure [getResizePaths] of the paths object. *)
Definition getResizePaths (paths : Paths) (size : Z) : ResizePaths :=
  let filenameWithSize := getFilenameWithSize (inPath paths) size in
  {| r_outPath := path_join [outDir paths; filenameWithSize];
     r_outUrl := path_join [path_dirname (outUrl paths); filenameWithSize];
     r_outPathWebp :=
       path_join [outDir paths; getWebpFilenameWithSize (inPath paths) size] |}.

Definition getBase64 (pathname : string) (inlined : bool) : M W string :=
  let* size :=
    (if inlined
     then let* meta := sharp_metadata pathname in ret (Meta.size meta)
     else ret (Some 64)) in
  let* s := sharp_resize_toBuffer pathname size in
  ret ("data:image/png;base64," +:+ buffer_toString_base64 s).

Definition optimizeSVG (svg : string) : M W string := svgo_optimize svg.

Definition getTrace (pathname : string) : M W string :=
  let size :=
    match traceSize options with
    | Some n => if n =? 0 then 500 else n
    | None => 500
    end in
  let* s := sharp_resize_toBuffer pathname (Some size) in
  let* res := potrace_trace s in
  optimizeSVG res.

Definition getProp (node : Node.t) (attr : string) : option AttrValue :=
  let prop :=
    List.find (fun a => String.eqb (Attribute.name a) attr)
      (default [] (Node.attributes node)) in
  match prop with
  | Some p => Some (Attribute.value p)
  | None => None
  end.

(** [getProp] cannot throw on a node of the model, so the [catch] of the
    source, which returns the same [[{}]], is not needed. *)
Definition getSrc (node : Node.t) : AttrValue :=
  match getProp node "src" with
  | Some v => v
  | None => ValList [Value.empty]
  end.

Definition fileHasCorrectExtension (filename : string) (extensions : list string) : bool :=
  if (length extensions =? 0)%nat then true
  else
    includes_string (map Js.toLowerCase extensions)
      (Js.toLowerCase (List.last (Js.split "." filename) "")).

Definition willNotProcess (reason : string) : Decision := Skip reason.

Definition willProcess (nodeSrc : string) : M W Decision :=
  let* data := fs_readFileSync nodeSrc in
  fs_writeFileSync
    (path_resolve [publicDir options; outputDir options; path_basename nodeSrc None])
    data ;;;
  ret (Process (getPathsObject nodeSrc)).

(** [value.data.replace(/^\/([^\/])/, "$1")]: one leading slash, when
    another character that is not a slash follows it, is removed. *)
Definition removeDomainSlash (s : string) : string :=
  match s with
  | String "/" (String c rest) =>
      if Ascii.eqb c "/" then s else String c rest
  | _ => s
  end.

Definition getProcessingPathsForNode (node : Node.t) (parentDir : string)
  : M W Decision :=
  let* value := lift (firstValue (getSrc node)) in
  (* dynamic or empty value *)
  if is_string (Value.type value) "MustacheTag"
     || is_string (Value.type value) "AttributeShorthand"
  then
    ret (willNotProcess
           ("Cannot process a dynamic value: " +:+ showOptString (Value.type value)))
  else
    match nonBlank (Value.data value) with
    | None => ret (willNotProcess "The `src` is blank")
    | Some data =>
        if is_string (Node.name node) "img"
           && negb (fileHasCorrectExtension data (imgTagExtensions options))
        then
          ret (willNotProcess
                 ("The <img> tag was passed a file (" +:+ data +:+
                  ") whose extension is not one of " +:+
                  Js.join ", " (imgTagExtensions options)))
        else if is_string (Node.name node) (tagName options)
                && negb (fileHasCorrectExtension data (componentExtensions options))
        then
          ret (willNotProcess
                 ("The " +:+ tagName options +:+ " component was passed a file (" +:+
                  data +:+ ") whose extension is not one of " +:+
                  Js.join ", " (componentExtensions options)))
        else
          (* [inl d]: a [return d] inside the branch *)
          let* removedDomainSlash :=
            (if IS_EXTERNAL data then
               if negb (optimizeRemote options) then
                 ret (inl (willNotProcess ("The `src` is external: " +:+ data)))
               else
                 let* downloaded :=
                   try_catch (downloadImage data (sourceDir options))
                     (fun e => modify (console_error e) ;;; ret None) in
                 match downloaded with
                 | None =>
                     ret (inl (willNotProcess
                                 ("The url of is not an image: " +:+ data)))
                 | Some file => ret (inr file)
                 end
             else ret (inr (removeDomainSlash data))) in
          match removedDomainSlash with
          | inl decision => ret decision
          | inr _ =>
              let relativeToParent := path_resolve [parentDir; data] in
              let relativeToSource := path_resolve [sourceDir options; data] in
              let* inParent := gets (fs_existsSync relativeToParent) in
              if inParent then willProcess relativeToParent
              else
                let* inSource := gets (fs_existsSync relativeToSource) in
                if inSource then willProcess relativeToSource
                else
                  ret (willNotProcess
                         ("The image file does not exist: " +:+ relativeToSource))
          end
    end.

(** [mkdirp] called with an array. *)
Definition mkdirp_parts (dir : list string) : M W string :=
  foldM
    (fun created nextPart =>
       let newDir := path_join [created; nextPart] in
       let* there := gets (fs_existsSync newDir) in
       (if there then ret tt else fs_mkdirSync newDir) ;;;
       ret newDir)
    dir "".

(** [mkdirp] called with a string. *)
Definition mkdirp (dir : string) : M W string :=
  let* there := gets (fs_existsSync dir) in
  if there then ret dir else mkdirp_parts (Js.split path_sep dir).

Definition ensureOutDirExists (outDir : string) : M W unit :=
  mkdirp (path_join [sourceDir options; getRelativePath outDir]) ;;;
  ret tt.

(** [meta = null] is [None].  A size wider than the image yields [null]. *)
Definition resize (size : Z) (paths : Paths) (meta : option Meta.t)
  : M W (option Variant.t) :=
  let* meta :=
    (match meta with
     | Some m => ret m
     | None => sharp_metadata (inPath paths)
     end) in
  let rp := getResizePaths paths size in
  if Meta.width meta <? size then ret None
  else
    ensureOutDirExists (outDir paths) ;;;
    (if webp options then
       let* there := gets (fs_existsSync (r_outPathWebp rp)) in
       if there then ret tt
       else sharp_resize_webp_toFile (inPath paths) size (r_outPathWebp rp)
     else ret tt) ;;;
    let* there := gets (fs_existsSync (r_outPath rp)) in
    if there then
      ret (Some {| Variant.width := Meta.width meta;
                   Variant.height := Meta.height meta;
                   Variant.filename := r_outUrl rp;
                   Variant.size := size |})
    else
      let* info := sharp_resize_toFile (inPath paths) size (r_outPath rp) in
      ret (Some {| Variant.width := Info.width info;
                   Variant.height := Info.height info;
                   Variant.size := size;
                   Variant.filename := r_outUrl rp |}).

(** [Promise.all] starts the resizes together; they are run here one
    after the other, in the order of [sizes], which is the order of the
    results.  (When one of them rejects, the source lets the others go on
    writing files; the rejection itself is the same.) *)
Definition createSizes (paths : Paths) : M W (list Variant.t) :=
  let smallestSize := Math_min (sizes options) in
  let* meta := sharp_metadata (inPath paths) in
  let sizes :=
    if gt_number smallestSize (Meta.width meta)
    then [Meta.width meta]
    else sizes options in
  let* resized := mapM (fun size => resize size paths (Some meta)) sizes in
  ret (filterBoolean resized).

(** [pathSepPattern]: every [path.sep], to be replaced by a slash. *)
Definition slashes (filename : string) : string :=
  Js.replaceAllChar path_sep "/" filename.

Definition srcsetLine (s : Variant.t) (i : nat) : string :=
  slashes (Variant.filename s) +:+ " " +:+
  showOptZ (breakpoints options !! i) +:+ "w".

Definition srcsetLineWebp (s : Variant.t) (i : nat) : string :=
  Js.replace "jpeg" "webp"
    (Js.replace "png" "webp"
       (Js.replace "jpg" "webp"
          (slashes (Variant.filename s) +:+ " " +:+
           showOptZ (breakpoints options !! i) +:+ "w"))).

(** The local [srcSetValue] of [getSrcset]; the variants are objects, so
    [filter((f) => f)] keeps them all. *)
Definition srcSetValue (sizes : list Variant.t) (lineFn : Variant.t -> nat -> string)
  : string :=
  Js.join "," (imap (fun i s => lineFn s i) sizes).

Definition getSrcset (sizes : list Variant.t) (lineFn : Variant.t -> nat -> string)
  (tag : string) : string :=
  " " +:+ tag +:+ "='" +:+ srcSetValue sizes lineFn +:+ "' ".

(** [edited] is the value of the awaited promise. *)
Definition replaceInComponent (edited : Edited) (node : Node.t) (parentDir : string)
  : M W Edited :=
  let content := Edited.content edited in
  let offset := Edited.offset edited in
  let* decision := getProcessingPathsForNode node parentDir in
  match decision with
  | Skip reason =>
      modify (console_error reason) ;;;
      ret {| Edited.content := content; Edited.offset := offset |}
  | Process paths =>
      let* sizes := createSizes paths in
      let* base64 :=
        (if String.eqb (placeholder options) "blur"
         then getBase64 (inPath paths) false
         else getTrace (inPath paths)) in
      let* value := lift (firstValue (getSrc node)) in
      let start := Value.start value in
      let end_ := Value.end_ value in
      let withBase64 := insert content base64 start end_ offset in
      let withSrcset :=
        insert (Edited.content withBase64) (getSrcset sizes srcsetLine "srcset")
          (end_ + 1) (end_ + 2) (Edited.offset withBase64) in
      match sizes with
      | [] => throw "TypeError: Cannot read properties of undefined (reading 'width')"
      | first :: _ =>
          let withRatio :=
            insert (Edited.content withSrcset)
              (" ratio='" +:+
               ratio_percent (Variant.width first) (Variant.height first) +:+ "%' ")
              (end_ + 1) (end_ + 2) (Edited.offset withSrcset) in
          if negb (webp options) then ret withRatio
          else
            ret (insert (Edited.content withRatio)
                   (getSrcset sizes srcsetLineWebp "srcsetWebp")
                   (end_ + 1) (end_ + 2) (Edited.offset withRatio))
      end
  end.

Definition optimize (paths : Paths) : M W string :=
  let* size := fs_statSync_size (inPath paths) in
  if negb (inlineBelow options =? 0) && (size <? inlineBelow options)
  then getBase64 (inPath paths) true
  else
    ensureOutDirExists (outDir paths) ;;;
    sharp_toFile (inPath paths) (outPath paths) ;;;
    ret (outUrl paths).

Definition replaceInImg (edited : Edited) (node : Node.t) (parentDir : string)
  : M W Edited :=
  let content := Edited.content edited in
  let offset := Edited.offset edited in
  let* decision := getProcessingPathsForNode node parentDir in
  match decision with
  | Skip _ => ret {| Edited.content := content; Edited.offset := offset |}
  | Process paths =>
      let* value := lift (firstValue (getSrc node)) in
      let start := Value.start value in
      let end_ := Value.end_ value in
      try_catch
        (let* outUri := optimize paths in
         ret (insert content outUri start end_ offset))
        (fun e =>
           modify (console_error e) ;;;
           ret {| Edited.content := content; Edited.offset := offset |})
  end.

(** The [enter] callback of the walk: does it push the node? *)
Definition enter (node : Node.t) : bool :=
  if negb (match Node.type node with
           | Some t => includes_string ["Element"; "Fragment"; "InlineComponent"] t
           | None => false
           end)
  then false
  else if optimizeAll options && is_string (Node.name node) "img" then true
  else if negb (is_string (Node.name node) (tagName options)) then false
  else true.

Definition replaceImages (content parentDir : string) : M W string :=
  let sourceDir := path_resolve [sourceDir options] in
  if negb (sourceDir_regexp_test sourceDir parentDir)
     || (negb (Js.includes "<img" content) && negb (Js.includes "<Image" content))
  then ret content
  else
    let* ast :=
      (match svelte_parse content with
       | Ok tree => ret (Some tree)
       | Throw e =>
           modify (console_error (e +:+ " Error parsing component content")) ;;;
           ret None
       end) in
    let imageNodes := List.filter enter (svelte_walk ast) in
    if (length imageNodes =? 0)%nat then ret content
    else
      let beforeProcessed := {| Edited.content := content; Edited.offset := 0 |} in
      let* processed :=
        foldM
          (fun edited node =>
             if is_string (Node.name node) "img"
             then replaceInImg edited node parentDir
             else replaceInComponent edited node parentDir)
          imageNodes beforeProcessed in
      ret (Edited.content processed).

(** The [markup] preprocessor that [getPreprocessor] returns, for the
    merged options. *)
Definition markup (content : string) (filename : option string) : M W string :=
  replaceImages content (path_dirname (default "" (nonBlank filename))).

End Main.

(** ** A concrete environment

    A small implementation of [Env], used to run the code on explicit
    inputs: POSIX paths below the working directory [/proj], a file system
    that is a finite map from absolute paths to file contents together
    with a set of directories, a table of remote resources, and a table of
    the files the image backend can decode with their natural dimensions.
    The hash, the base64 text, the tracer and the number formatting are
    stand-ins: no theorem depends on what they compute. *)

Module Posix.

Definition cwd : string := "/proj".

Definition endsWith (suffix s : string) : bool :=
  Js.startsWith (String.rev suffix) (String.rev s).

Definition isAbsolute (p : string) : bool := Js.startsWith "/" p.

(** [normalizeString]: [.] and empty segments vanish, [..] removes the
    segment before it; [stack] holds the segments kept so far, last first. *)
Fixpoint normalizeSegments (allowAboveRoot : bool) (stack segs : list string)
  : list string :=
  match segs with
  | [] => rev stack
  | seg :: rest =>
      if String.eqb seg "" || String.eqb seg "." then
        normalizeSegments allowAboveRoot stack rest
      else if String.eqb seg ".." then
        match stack with
        | top :: below =>
            if String.eqb top ".."
            then normalizeSegments allowAboveRoot (".." :: stack) rest
            else normalizeSegments allowAboveRoot below rest
        | [] =>
            if allowAboveRoot
            then normalizeSegments allowAboveRoot [".."] rest
            else normalizeSegments allowAboveRoot [] rest
        end
      else normalizeSegments allowAboveRoot (seg :: stack) rest
  end.

Definition normalizeString (p : string) (allowAboveRoot : bool) : string :=
  Js.join "/" (normalizeSegments allowAboveRoot [] (Js.split "/" p)).

Definition normalize (p : string) : string :=
  if String.eqb p "" then "."
  else
    let absolute := isAbsolute p in
    let trailingSeparator := endsWith "/" p in
    let body := normalizeString p (negb absolute) in
    if String.eqb body "" then
      if absolute then "/" else if trailingSeparator then "./" else "."
    else
      let body := if trailingSeparator then body +:+ "/" else body in
      if absolute then "/" +:+ body else body.

Definition join (args : list string) : string :=
  match List.filter (fun a => negb (String.eqb a "")) args with
  | [] => "."
  | parts => normalize (Js.join "/" parts)
  end.

(** The arguments are read from the last one backwards, then the working
    directory, until the path is absolute. *)
Fixpoint resolveFrom (reversed : list string) (resolvedPath : string) : string :=
  match reversed with
  | [] => "/" +:+ normalizeString resolvedPath false
  | p :: rest =>
      if String.eqb p "" then resolveFrom rest resolvedPath
      else
        let resolvedPath := p +:+ "/" +:+ resolvedPath in
        if isAbsolute p then "/" +:+ normalizeString resolvedPath false
        else resolveFrom rest resolvedPath
  end.

Definition resolve (args : list string) : string :=
  resolveFrom (rev args ++ [cwd]) "".

Fixpoint dropWhileSlash (s : string) : string :=
  match s with
  | String "/" rest => dropWhileSlash rest
  | _ => s
  end.

Definition stripTrailingSlashes (p : string) : string :=
  String.rev (dropWhileSlash (String.rev p)).

Definition basename (p : string) (ext : option string) : string :=
  let base := List.last (Js.split "/" (stripTrailingSlashes p)) "" in
  match ext with
  | Some e =>
      if endsWith e base && negb (String.eqb e base)
      then Js.take (String.length base - String.length e) base
      else base
  | None => base
  end.

Definition extname (p : string) : string :=
  let base := basename p None in
  match Js.split "." base with
  | [] | [_] => ""
  | ["" ; _] => ""
  | segs => if String.eqb base ".." then "" else "." +:+ List.last segs ""
  end.

Definition dirname (p : string) : string :=
  match Js.split "/" (stripTrailingSlashes p) with
  | [] | [_] => if isAbsolute p then "/" else "."
  | segs =>
      let dir := Js.join "/" (removelast segs) in
      if String.eqb dir "" then "/" else dir
  end.

Fixpoint dropCommon (a b : list string) : list string * list string :=
  match a, b with
  | x :: a', y :: b' => if String.eqb x y then dropCommon a' b' else (a, b)
  | _, _ => (a, b)
  end.

Definition relative (from to : string) : string :=
  let segments p := List.filter (fun s => negb (String.eqb s ""))
                      (Js.split "/" (resolve [p])) in
  let '(up, down) := dropCommon (segments from) (segments to) in
  Js.join "/" (map (fun _ => "..") up ++ down).

(** The outside world. *)
Record World := {
  files : gmap string string;
  dirs : gset string;
  web : gmap string (string * string);
  images : gmap string (Z * Z);
  console : list string
}.

Definition log (msg : string) (w : World) : World :=
  {| files := files w; dirs := dirs w; web := web w; images := images w;
     console := console w ++ [msg] |}.

(** Every operation of the file system resolves the path it is given. *)
Definition exists_ (p : string) (w : World) : bool :=
  bool_decide (is_Some (files w !! resolve [p])) || bool_decide (resolve [p] ∈ dirs w).

Definition readFile (p : string) : M World string :=
  fun w =>
    match files w !! resolve [p] with
    | Some data => (Ok data, w)
    | None => (Throw ("ENOENT: no such file or directory, open '" +:+ p +:+ "'"), w)
    end.

(** Writing needs the directory of the file to be there. *)
Definition writeFile (p data : string) : M World unit :=
  fun w =>
    if bool_decide (dirname (resolve [p]) ∈ dirs w) then
      (Ok tt,
       {| files := <[resolve [p] := data]> (files w); dirs := dirs w; web := web w;
          images := images w; console := console w |})
    else (Throw ("ENOENT: no such file or directory, open '" +:+ p +:+ "'"), w).

Definition statSize (p : string) : M World Z :=
  let* data := readFile p in ret (Js.len data).

Definition readdir (d : string) : M World (list string) :=
  fun w =>
    let dir := resolve [d] in
    if bool_decide (dir ∈ dirs w) then
      (Ok (map (fun p => basename p None)
             (List.filter (fun p => String.eqb (dirname p) dir)
                (elements (dom (files w) ∪ dirs w)))),
       w)
    else (Throw ("ENOENT: no such file or directory, scandir '" +:+ d +:+ "'"), w).

Definition mkdir (d : string) : M World unit :=
  fun w =>
    if exists_ d w then (Throw ("EEXIST: file already exists, mkdir '" +:+ d +:+ "'"), w)
    else if bool_decide (dirname (resolve [d]) ∈ dirs w) then
      (Ok tt,
       {| files := files w; dirs := {[resolve [d]]} ∪ dirs w; web := web w;
          images := images w; console := console w |})
    else (Throw ("ENOENT: no such file or directory, mkdir '" +:+ d +:+ "'"), w).

Definition head (url : string) : M World (option string) :=
  fun w =>
    match web w !! url with
    | Some (contentType, _) => (Ok (Some contentType), w)
    | None => (Throw "Error: Network Error", w)
    end.

Definition download (url saveTo : string) : M World unit :=
  fun w =>
    match web w !! url with
    | Some (_, body) => writeFile saveTo body w
    | None => (Throw "Error: Network Error", w)
    end.

Definition unsupported : string :=
  "Error: Input file is missing or of an unsupported image format".

Definition metadata (p : string) : M World Meta.t :=
  fun w =>
    match images w !! resolve [p] with
    | Some (width, height) =>
        (Ok {| Meta.width := width; Meta.height := height; Meta.size := None |}, w)
    | None => (Throw unsupported, w)
    end.

Definition toBuffer (p : string) (size : option Z) : M World string :=
  let* meta := metadata p in
  ret ("pixels:" +:+ showOptZ size).

(** Resizing never enlarges ([withoutEnlargement]) and keeps the ratio. *)
Definition resizeToFile (p : string) (size : Z) (out : string) : M World Info.t :=
  let* meta := metadata p in
  let width := Z.min size (Meta.width meta) in
  let height := Meta.height meta * width / Meta.width meta in
  writeFile out "resized" ;;;
  ret {| Info.width := width; Info.height := height |}.

Definition webpToFile (p : string) (size : Z) (out : string) : M World unit :=
  resizeToFile p size out ;;; ret tt.

Definition toFile (p out : string) : M World unit :=
  let* meta := metadata p in writeFile out "optimized".

(** The walker calls [enter] on nothing when it is given [undefined]. *)
Definition walk (ast : option (list Node.t)) : list Node.t := default [] ast.

(** The environment, for a given behaviour of the markup parser. *)
Definition env (parse : string -> result (list Node.t)) : Env World := {|
  path_sep := "/";
  path_resolve := resolve;
  path_join := join;
  path_basename := basename;
  path_extname := extname;
  path_dirname := dirname;
  path_relative := relative;
  fs_existsSync := exists_;
  fs_readFileSync := readFile;
  fs_writeFileSync := writeFile;
  fs_statSync_size := statSize;
  fs_readdirSync := readdir;
  fs_mkdirSync := mkdir;
  sha1_hex := fun url => "sha1" +:+ Js.showZ (Js.len url);
  axios_head := head;
  axios_download := download;
  sharp_metadata := metadata;
  sharp_resize_toBuffer := toBuffer;
  sharp_resize_webp_toFile := webpToFile;
  sharp_resize_toFile := resizeToFile;
  sharp_toFile := toFile;
  buffer_toString_base64 := fun buffer => buffer;
  potrace_trace := fun buffer => ret ("<svg>" +:+ buffer +:+ "</svg>");
  svgo_optimize := fun svg => ret ("data:image/svg+xml;base64," +:+ svg);
  Ast := list Node.t;
  svelte_parse := parse;
  svelte_walk := walk;
  console_error := log;
  sourceDir_regexp_test := Js.includes;
  ratio_percent := fun width height => Js.showZ (100 * height / width)
|}.

End Posix.

(** Unfolding the operations of the monad in the goal and the context. *)
Ltac run :=
  unfold bind, ret, throw, lift, gets, modify, try_catch in *.

(** ** Notions of the specification *)

(** [seg] is the final dot-separated segment of [filename]: it holds no
    dot, and it is the whole name or what follows the last dot of it. *)
Definition final_segment (filename seg : string) : Prop :=
  Js.includes "." seg = false /\
  (filename = seg \/ exists stem : string, filename = stem +:+ "." +:+ seg).


(** The node has no [src] attribute; an absent attribute list counts. *)
Definition has_no_src (node : Node.t) : Prop :=
  forall a : Attribute.t,
    In a (default [] (Node.attributes node)) -> Attribute.name a <> "src".

(** A target size that does not exceed the natural width. *)
Definition fits (meta : Meta.t) (size : Z) : bool := size <=? Meta.width meta.

(** The sizes [createSizes] tries: the configured ones, or the natural
    width alone when that is below all of them. *)
Definition candidateSizes (options : Options) (meta : Meta.t) : list Z :=
  if gt_number (Math_min (sizes options)) (Meta.width meta)
  then [Meta.width meta]
  else sizes options.

(** ** Explicit inputs

    A project below [/proj] with the default options: sources in
    [/proj/src], the output area [/proj/static/g] already there. *)

Module Scenario.

Definition project_dirs : gset string :=
  {[ "/"; "/proj"; "/proj/src"; "/proj/src/routes"; "/proj/static"; "/proj/static/g" ]}.

(** The parser finds these nodes; or it throws. *)
Definition parses (nodes : list Node.t) : Env Posix.World :=
  Posix.env (fun _ => Ok nodes).


(** A source image of the given natural dimensions. *)
Definition world_with_image (file : string) (width height : Z) : Posix.World :=
  {| Posix.files := {[ file := "image bytes" ]};
     Posix.dirs := project_dirs;
     Posix.web := ∅;
     Posix.images := {[ file := (width, height) ]};
     Posix.console := [] |}.

(** A file named like an image that the backend cannot decode. *)
Definition world_with_broken_image : Posix.World :=
  {| Posix.files := {[ "/proj/src/broken.jpg" := "not an image" ]};
     Posix.dirs := project_dirs;
     Posix.web := ∅;
     Posix.images := ∅;
     Posix.console := [] |}.

(** A remote image, not downloaded yet. *)
Definition remote_url : string := "https://example.com/a.png".

Definition world_with_remote_image : Posix.World :=
  {| Posix.files := ∅;
     Posix.dirs := project_dirs;
     Posix.web := {[ remote_url := ("image/png", "png bytes") ]};
     Posix.images := ∅;
     Posix.console := [] |}.

Definition text (data : string) (start end_ : Z) : AttrValue :=
  ValList [ {| Value.type := Some "Text"; Value.data := Some data;
               Value.start := start; Value.end_ := end_ |} ].

Definition element (type name : string) (attributes : list Attribute.t) : Node.t :=
  {| Node.type := Some type; Node.name := Some name;
     Node.attributes := Some attributes |}.

Definition fragment : Node.t :=
  {| Node.type := Some "Fragment"; Node.name := None; Node.attributes := None |}.

(** [<Image src='broken.jpg' />] and [<img src='broken.jpg' />]. *)
Definition component_markup : string := "<Image src='broken.jpg' />".
Definition component_node : Node.t :=
  element "InlineComponent" "Image"
    [ {| Attribute.name := "src"; Attribute.value := text "broken.jpg" 12 22 |} ].

Definition img_markup : string := "<img src='broken.jpg' />".
Definition img_node : Node.t :=
  element "Element" "img"
    [ {| Attribute.name := "src"; Attribute.value := text "broken.jpg" 10 20 |} ].

(** [<img src='https://example.com/a.png'>]. *)
Definition remote_img_node : Node.t :=
  element "Element" "img"
    [ {| Attribute.name := "src"; Attribute.value := text remote_url 10 35 |} ].

(** [<img alt='logo'>]: no [src]. *)
Definition img_without_src : Node.t :=
  element "Element" "img"
    [ {| Attribute.name := "alt"; Attribute.value := text "logo" 10 14 |} ].

(** The paths object of a source image, with the default options. *)
Definition paths_of (file : string) : Paths :=
  getPathsObject (E := parses []) defaults file.

(** The variant of a source image at a size, as [resize] names it. *)
Definition variant_of (file : string) (size width height : Z) : Variant.t :=
  {| Variant.width := width; Variant.height := height; Variant.size := size;
     Variant.filename := r_outUrl (getResizePaths (E := parses []) (paths_of file) size) |}.

(** More nodes, options and worlds. *)

Definition descriptor (data : string) (start end_ : Z) : Value.t :=
  {| Value.type := Some "Text"; Value.data := Some data;
     Value.start := start; Value.end_ := end_ |}.

Definition mustache : Value.t :=
  {| Value.type := Some "MustacheTag"; Value.data := None;
     Value.start := 10; Value.end_ := 15 |}.

Definition src_attribute (value : AttrValue) : Attribute.t :=
  {| Attribute.name := "src"; Attribute.value := value |}.

(** [<img src={url}>] *)
Definition dynamic_img_node : Node.t :=
  element "Element" "img" [src_attribute (ValList [mustache])].

(** [<img src='logo.gif'>] and [<Image src='logo.gif'>] *)
Definition gif_img_node : Node.t :=
  element "Element" "img" [src_attribute (ValList [descriptor "logo.gif" 10 18])].

Definition gif_component_node : Node.t :=
  element "InlineComponent" "Image"
    [src_attribute (ValList [descriptor "logo.gif" 12 20])].

(** [<img src='fuji.jpg' />] and [<Image src='fuji.jpg' />] *)
Definition fuji_img_markup : string := "<img src='fuji.jpg' />".
Definition fuji_img_node : Node.t :=
  element "Element" "img" [src_attribute (ValList [descriptor "fuji.jpg" 10 18])].

Definition fuji_component_markup : string := "<Image src='fuji.jpg' />".
Definition fuji_component_node : Node.t :=
  element "InlineComponent" "Image"
    [src_attribute (ValList [descriptor "fuji.jpg" 12 20])].

(** [<img src>] *)
Definition valueless_img_node : Node.t :=
  element "Element" "img" [src_attribute ValTrue].

(** [<img src='a.jpg' alt='logo' src='b.jpg'>] *)
Definition double_src_node : Node.t :=
  element "Element" "img"
    [ src_attribute (ValList [descriptor "a.jpg" 10 15]);
      {| Attribute.name := "alt"; Attribute.value := text "logo" 22 26 |};
      src_attribute (ValList [descriptor "b.jpg" 33 38]) ].

(** The default options with one of them changed. *)
Definition with_component_extensions (extensions : list string) : Options :=
  {| optimizeAll := optimizeAll defaults;
     imgTagExtensions := imgTagExtensions defaults;
     componentExtensions := extensions;
     inlineBelow := inlineBelow defaults;
     tagName := tagName defaults;
     sizes := sizes defaults;
     breakpoints := breakpoints defaults;
     outputDir := outputDir defaults;
     publicDir := publicDir defaults;
     sourceDir := sourceDir defaults;
     placeholder := placeholder defaults;
     webp := webp defaults;
     traceSize := traceSize defaults;
     optimizeRemote := optimizeRemote defaults |}.

Definition without_remote : Options :=
  {| optimizeAll := optimizeAll defaults;
     imgTagExtensions := imgTagExtensions defaults;
     componentExtensions := componentExtensions defaults;
     inlineBelow := inlineBelow defaults;
     tagName := tagName defaults;
     sizes := sizes defaults;
     breakpoints := breakpoints defaults;
     outputDir := outputDir defaults;
     publicDir := publicDir defaults;
     sourceDir := sourceDir defaults;
     placeholder := placeholder defaults;
     webp := webp defaults;
     traceSize := traceSize defaults;
     optimizeRemote := false |}.



(** The URL answers with a page, not an image. *)
Definition world_serving_html : Posix.World :=
  {| Posix.files := ∅;
     Posix.dirs := project_dirs;
     Posix.web := {[ remote_url := ("text/html", "<html>") ]};
     Posix.images := ∅;
     Posix.console := [] |}.

(** The output directory [/proj/static/g] has not been made yet. *)
Definition world_without_output_dir : Posix.World :=
  {| Posix.files := ∅;
     Posix.dirs := {[ "/"; "/proj"; "/proj/src"; "/proj/static" ]};
     Posix.web := ∅;
     Posix.images := ∅;
     Posix.console := [] |}.

Definition fuji_world : Posix.World := world_with_image "/proj/src/fuji.jpg" 1000 500.

(** The variant of size 400 was written by an earlier run. *)
Definition world_with_cached_variant : Posix.World :=
  {| Posix.files :=
       {[ "/proj/src/fuji.jpg" := "image bytes";
          "/proj/static/g/fuji-400.jpg" := "resized";
          "/proj/static/g/fuji-400.webp" := "resized" ]};
     Posix.dirs := project_dirs;
     Posix.web := ∅;
     Posix.images := {[ "/proj/src/fuji.jpg" := (1000, 500) ]};
     Posix.console := [] |}.

End Scenario.

(** ** Further notions *)

(** The [src] of the node is the static, non-blank text [data], read from
    the descriptor [value]. *)
Definition static_src (node : Node.t) (value : Value.t) (data : string) : Prop :=
  firstValue (getSrc node) = Ok value /\
  Value.type value <> Some "MustacheTag" /\
  Value.type value <> Some "AttributeShorthand" /\
  Value.data value = Some data /\
  data <> "".

(** Both extension gates of the resolution let [data] through. *)
Definition passes_gates (options : Options) (node : Node.t) (data : string) : Prop :=
  (Node.name node = Some "img" ->
   fileHasCorrectExtension data (imgTagExtensions options) = true) /\
  (Node.name node = Some (tagName options) ->
   fileHasCorrectExtension data (componentExtensions options) = true).

(** The edit that puts [uri] in the place of the [src] value of a node. *)
Definition src_edit (node : Node.t) (uri : string) : EditOperation :=
  match firstValue (getSrc node) with
  | Ok value =>
      {| Edit.start := Value.start value; Edit.end_ := Value.end_ value;
         Edit.replacement := uri |}
  | Throw _ => {| Edit.start := 0; Edit.end_ := 0; Edit.replacement := uri |}
  end.

(** The reducer of [replaceImages] on the text, from any point on. *)
Definition applyEditsFrom (edited : Edited) (edits : list EditOperation) : Edited :=
  fold_left
    (fun acc e =>
       insert (Edited.content acc) (Edit.replacement e) (Edit.start e) (Edit.end_ e)
         (Edited.offset acc))
    edits edited.

(** The first steps of [getProcessingPathsForNode] on a static [src]. *)
Ltac resolve_static Hvalue Hmustache Hshorthand Hdata Hnonblank :=
  unfold getProcessingPathsForNode;
  rewrite Hvalue; run; cbv beta iota;
  rewrite Hmustache, Hshorthand; cbn [orb]; cbv beta iota;
  rewrite Hdata, Hnonblank; cbv beta iota.

(** The local [ast] of [replaceImages] after the [try]: the parsed text,
    or [undefined] when the parser threw. *)
Definition parsedTree {W : Type} {E : Env W} (content : string) : option Ast :=
  match svelte_parse content with
  | Ok tree => Some tree
  | Throw _ => None
  end.

(** The local [imageNodes] of [replaceImages]: the nodes that the walk
    over the parsed text pushes. *)
Definition imageNodes {W : Type} {E : Env W} (options : Options) (content : string)
  : list Node.t :=
  List.filter (enter options) (svelte_walk (parsedTree content)).

(** Every directory on the way that [mkdirp] takes through [parts],
    starting from [created], is there. *)
Fixpoint directories_exist {W : Type} {E : Env W} (created : string)
  (parts : list string) (w : W) : Prop :=
  match parts with
  | [] => True
  | nextPart :: rest =>
      fs_existsSync (path_join [created; nextPart]) w = true /\
      directories_exist (path_join [created; nextPart]) rest w
  end.

(** The edits that replace the [src] values of chosen nodes. *)
Definition src_edits (picked : list (Node.t * string)) : list EditOperation :=
  map (fun p => src_edit (fst p) (snd p)) picked.

(** * Properties *)

(** ** Strings *)

Lemma app_cons (c : ascii) (s t : string) : String c s +:+ t = String c (s +:+ t).
Proof. reflexivity. Qed.

Lemma app_nil (t : string) : "" +:+ t = t.
Proof. reflexivity. Qed.

Lemma length_app (s t : string) :
  String.length (s +:+ t) = (String.length s + String.length t)%nat.
Proof.
  induction s as [|c s IH]; [reflexivity |].
  rewrite app_cons. simpl. now rewrite IH.
Qed.

Lemma len_app (s t : string) : Js.len (s +:+ t) = Js.len s + Js.len t.
Proof. unfold Js.len. rewrite length_app. lia. Qed.

Lemma app_assoc_s (s t u : string) : (s +:+ t) +:+ u = s +:+ t +:+ u.
Proof.
  induction s as [|c s IH]; [reflexivity |].
  rewrite !app_cons. now rewrite IH.
Qed.

Lemma app_empty_r (s : string) : s +:+ "" = s.
Proof.
  induction s as [|c s IH]; [reflexivity |].
  rewrite app_cons. now rewrite IH.
Qed.

Lemma take_drop (n : nat) (s : string) : Js.take n s +:+ Js.drop n s = s.
Proof.
  revert s. induction n as [|n IH]; intros [|c s]; simpl; try reflexivity.
  rewrite app_cons. now rewrite IH.
Qed.

Lemma length_take (n : nat) (s : string) :
  String.length (Js.take n s) = Nat.min n (String.length s).
Proof.
  revert s. induction n as [|n IH]; intros [|c s]; simpl; try reflexivity.
  now rewrite IH.
Qed.

Lemma length_drop (n : nat) (s : string) :
  String.length (Js.drop n s) = (String.length s - n)%nat.
Proof.
  revert s. induction n as [|n IH]; intros [|c s]; simpl; try reflexivity.
  apply IH.
Qed.

Lemma take_all (n : nat) (s : string) :
  (String.length s <= n)%nat -> Js.take n s = s.
Proof.
  revert s. induction n as [|n IH]; intros [|c s] H; simpl in *; try reflexivity.
  - lia.
  - rewrite IH; [reflexivity | lia].
Qed.

Lemma take_app (p r : string) (k : nat) :
  Js.take (String.length p + k) (p +:+ r) = p +:+ Js.take k r.
Proof.
  induction p as [|c p IH]; [reflexivity |].
  rewrite !app_cons. simpl. now rewrite IH.
Qed.

Lemma drop_app (p r : string) (k : nat) :
  Js.drop (String.length p + k) (p +:+ r) = Js.drop k r.
Proof.
  induction p as [|c p IH]; [reflexivity |].
  rewrite app_cons. simpl. apply IH.
Qed.

Lemma drop_drop (n k : nat) (s : string) :
  Js.drop k (Js.drop n s) = Js.drop (n + k) s.
Proof.
  revert s. induction n as [|n IH]; intros s; simpl; [reflexivity |].
  destruct s as [|c s]; [now destruct k | apply IH].
Qed.

(** [substr(0, a)] and [substr(b)] inside the string are a prefix and a
    suffix. *)
Lemma substr_prefix (s : string) (a : Z) :
  0 <= a <= Js.len s -> Js.substr s 0 (Some a) = Js.take (Z.to_nat a) s.
Proof.
  intros H. unfold Js.substr.
  change (0 <? 0) with false. cbv iota.
  rewrite (Z.min_l 0 (Js.len s)), (Z.max_l a 0), (Z.min_l a (Js.len s)) by lia.
  rewrite (Z.min_l (0 + a) (Js.len s)) by lia.
  now replace (0 + a - 0) with a by lia.
Qed.

Lemma substr_suffix (s : string) (b : Z) :
  0 <= b <= Js.len s -> Js.substr s b None = Js.drop (Z.to_nat b) s.
Proof.
  intros H. unfold Js.substr.
  destruct (b <? 0) eqn:Hb; [lia |].
  rewrite (Z.min_l b (Js.len s)), Z.min_r by lia.
  apply take_all. rewrite length_drop. unfold Js.len in *. lia.
Qed.

(** ** The Text Patcher *)

Lemma insert_in_range (content value : string) (start end_ offset : Z) :
  0 <= start + offset -> start <= end_ -> end_ + offset <= Js.len content ->
  insert content value start end_ offset =
    {| Edited.content :=
         Js.take (Z.to_nat (start + offset)) content +:+ value +:+
         Js.drop (Z.to_nat (end_ + offset)) content;
       Edited.offset := offset + Js.len value - (end_ - start) |}.
Proof.
  intros H1 H2 H3. unfold insert.
  rewrite substr_prefix, substr_suffix by lia. reflexivity.
Qed.

Lemma edits_sorted_bound (lo size : Z) (edits : list EditOperation) :
  edits_sorted lo size edits -> lo <= size.
Proof.
  revert lo. induction edits as [|e rest IH]; simpl; intros lo H; [exact H |].
  destruct H as (H1 & H2 & H3). apply IH in H3. lia.
Qed.

(** The invariant of the reducer: the text so far is a finished part [p],
    as long as the original up to [lo] moved by the offset, followed by
    the untouched rest of the original. *)
Lemma applyEdits_invariant (original : string) (edits : list EditOperation) :
  forall (p : string) (lo off : Z),
    0 <= lo -> Js.len p = lo + off ->
    edits_sorted lo (Js.len original) edits ->
    fold_left
      (fun acc e =>
         insert (Edited.content acc) (Edit.replacement e) (Edit.start e) (Edit.end_ e)
           (Edited.offset acc))
      edits
      {| Edited.content := p +:+ Js.drop (Z.to_nat lo) original; Edited.offset := off |}
    = {| Edited.content := p +:+ spliced lo original edits;
         Edited.offset := off + delta edits |}.
Proof.
  induction edits as [|e rest IH]; intros p lo off Hlo Hp Hs; simpl.
  - now rewrite Z.add_0_r.
  - destruct Hs as (H1 & H2 & H3).
    pose proof (edits_sorted_bound _ _ _ H3) as Hend.
    assert (Hlen : Js.len (Js.drop (Z.to_nat lo) original) = Js.len original - lo).
    { unfold Js.len. rewrite length_drop. unfold Js.len in Hend. lia. }
    rewrite insert_in_range
      by (unfold Js.len in *; rewrite ?length_app, ?length_drop; lia).
    replace (Z.to_nat (Edit.start e + off))
      with (String.length p + Z.to_nat (Edit.start e - lo))%nat
      by (unfold Js.len in Hp; lia).
    replace (Z.to_nat (Edit.end_ e + off))
      with (String.length p + Z.to_nat (Edit.end_ e - lo))%nat
      by (unfold Js.len in Hp; lia).
    rewrite take_app, drop_app, drop_drop.
    replace (Z.to_nat lo + Z.to_nat (Edit.end_ e - lo))%nat
      with (Z.to_nat (Edit.end_ e)) by lia.
    rewrite <- !app_assoc_s.
    rewrite IH; [| lia | | exact H3].
    + f_equal. lia.
    + rewrite !len_app. unfold Js.len at 2. rewrite length_take.
      unfold Js.len in *. lia.
Qed.

Lemma len_spliced (original : string) (edits : list EditOperation) :
  forall lo, 0 <= lo -> edits_sorted lo (Js.len original) edits ->
    Js.len (spliced lo original edits) = Js.len original - lo + delta edits.
Proof.
  induction edits as [|e rest IH]; intros lo Hlo Hs; simpl.
  - unfold Js.len. rewrite length_drop. simpl in Hs. unfold Js.len in Hs. lia.
  - destruct Hs as (H1 & H2 & H3).
    pose proof (edits_sorted_bound _ _ _ H3) as Hend.
    rewrite !len_app, IH by (lia || assumption).
    unfold Js.len at 1. rewrite length_take, length_drop.
    unfold Js.len in *. lia.
Qed.

Lemma applyEdits_sorted (original : string) (edits : list EditOperation) :
  edits_sorted 0 (Js.len original) edits ->
  applyEdits original edits =
    {| Edited.content := spliced 0 original edits; Edited.offset := delta edits |}.
Proof.
  intros Hs.
  apply (applyEdits_invariant original edits "" 0 0); [lia | reflexivity | exact Hs].
Qed.

Lemma edits_sorted_last (lo size : Z) (done : list EditOperation) (e : EditOperation) :
  edits_sorted lo size (done ++ [e]) ->
  edits_sorted lo (Edit.start e) done /\
  Edit.start e <= Edit.end_ e /\ Edit.end_ e <= size.
Proof.
  revert lo. induction done as [|d done IH]; simpl; intros lo H.
  - lia.
  - destruct H as (H1 & H2 & H3). apply IH in H3. tauto.
Qed.

Lemma edits_sorted_weaken (lo size size' : Z) (edits : list EditOperation) :
  size <= size' -> edits_sorted lo size edits -> edits_sorted lo size' edits.
Proof.
  intros Hle. revert lo. induction edits as [|e rest IH]; simpl; intros lo H.
  - lia.
  - destruct H as (H1 & H2 & H3). auto.
Qed.

(** Sorted edits between [lo] and [size] cannot shorten the text by more
    than the distance between the two. *)
Lemma delta_lower_bound (lo size : Z) (edits : list EditOperation) :
  edits_sorted lo size edits -> lo - size <= delta edits.
Proof.
  revert lo. induction edits as [|e rest IH]; simpl; intros lo H.
  - lia.
  - destruct H as (H1 & H2 & H3). apply IH in H3.
    fold (delta rest). unfold Js.len. lia.
Qed.

(** C1. One application of [insert] whose range lies inside the current
    text replaces exactly the characters [start + offset, end + offset) by
    the value: what is before and after is kept as it is, and the new
    offset is [offset + len(value) - (end - start)].  The offset
    accumulated by edits that are sorted by [start] and do not overlap
    always places the next such edit inside the current text.
    Consequently these edits, applied in that order from offset 0, produce
    the original with each range replaced, whose length is the original
    length plus the sum of [len(replacement) - (end - start)]. *)
Theorem insert_replaces_range_and_lengths_add_up :
  (forall (content value : string) (start end_ offset : Z),
      0 <= start + offset -> start <= end_ -> end_ + offset <= Js.len content ->
      exists before cut after : string,
        content = before +:+ cut +:+ after /\
        Js.len before = start + offset /\
        Js.len cut = end_ - start /\
        Edited.content (insert content value start end_ offset)
          = before +:+ value +:+ after /\
        Edited.offset (insert content value start end_ offset)
          = offset + Js.len value - (end_ - start))
  /\
  (forall (original : string) (done : list EditOperation) (e : EditOperation),
      edits_sorted 0 (Js.len original) (done ++ [e]) ->
      let current := applyEdits original done in
      0 <= Edit.start e + Edited.offset current /\
      Edit.start e <= Edit.end_ e /\
      Edit.end_ e + Edited.offset current <= Js.len (Edited.content current))
  /\
  (forall (original : string) (edits : list EditOperation),
      edits_sorted 0 (Js.len original) edits ->
      Edited.content (applyEdits original edits) = spliced 0 original edits /\
      Edited.offset (applyEdits original edits) = delta edits /\
      Js.len (Edited.content (applyEdits original edits))
        = Js.len original + delta edits).
Proof.
  split; [| split].
  - intros content value start end_ offset H1 H2 H3.
    exists (Js.take (Z.to_nat (start + offset)) content),
      (Js.take (Z.to_nat (end_ - start))
         (Js.drop (Z.to_nat (start + offset)) content)),
      (Js.drop (Z.to_nat (end_ + offset)) content).
    rewrite insert_in_range by lia. simpl.
    repeat split.
    + rewrite <- (take_drop (Z.to_nat (start + offset)) content) at 1.
      f_equal.
      rewrite <- (take_drop (Z.to_nat (end_ - start))
                    (Js.drop (Z.to_nat (start + offset)) content)) at 1.
      f_equal. rewrite drop_drop. f_equal. lia.
    + unfold Js.len in *. rewrite length_take. lia.
    + unfold Js.len in *. rewrite length_take, length_drop. lia.
  - intros original done e Hs current.
    apply edits_sorted_last in Hs as (Hdone & Hse & Hend).
    pose proof (delta_lower_bound _ _ _ Hdone) as Hdelta.
    assert (Hall : edits_sorted 0 (Js.len original) done)
      by (apply (edits_sorted_weaken 0 (Edit.start e)); [lia | exact Hdone]).
    subst current. rewrite (applyEdits_sorted _ _ Hall). simpl.
    rewrite len_spliced by (lia || exact Hall). lia.
  - intros original edits Hs.
    rewrite (applyEdits_sorted _ _ Hs). simpl. repeat split.
    rewrite len_spliced by (lia || exact Hs). lia.
Qed.

Lemma insert_replaces_range_and_lengths_add_up_witness :
  (exists before cut after : string,
      "hello world" = before +:+ cut +:+ after /\
      Js.len before = 6 + 0 /\
      Js.len cut = 11 - 6 /\
      Edited.content (insert "hello world" "XY" 6 11 0) = before +:+ "XY" +:+ after /\
      Edited.offset (insert "hello world" "XY" 6 11 0) = 0 + Js.len "XY" - (11 - 6))
  /\
  (let done := [ {| Edit.start := 0; Edit.end_ := 5; Edit.replacement := "HI" |} ] in
   let e := {| Edit.start := 6; Edit.end_ := 11; Edit.replacement := "everyone" |} in
   let current := applyEdits "hello world" done in
   0 <= Edit.start e + Edited.offset current /\
   Edit.start e <= Edit.end_ e /\
   Edit.end_ e + Edited.offset current <= Js.len (Edited.content current))
  /\
  (let edits :=
     [ {| Edit.start := 0; Edit.end_ := 5; Edit.replacement := "HI" |};
       {| Edit.start := 6; Edit.end_ := 11; Edit.replacement := "everyone" |} ] in
   Edited.content (applyEdits "hello world" edits) = "HI everyone" /\
   Edited.content (applyEdits "hello world" edits) = spliced 0 "hello world" edits /\
   Edited.offset (applyEdits "hello world" edits) = delta edits /\
   Js.len (Edited.content (applyEdits "hello world" edits))
     = Js.len "hello world" + delta edits).
Proof.
  split; [| split].
  - apply (proj1 insert_replaces_range_and_lengths_add_up); vm_compute; congruence.
  - apply (proj1 (proj2 insert_replaces_range_and_lengths_add_up) "hello world"
             [ {| Edit.start := 0; Edit.end_ := 5; Edit.replacement := "HI" |} ]
             {| Edit.start := 6; Edit.end_ := 11; Edit.replacement := "everyone" |}).
    vm_compute. repeat split; congruence.
  - split; [reflexivity |].
    apply (proj2 (proj2 insert_replaces_range_and_lengths_add_up)).
    vm_compute. repeat split; congruence.
Defined.

(** ** The extension gate *)

Lemma split_nonempty (c : ascii) (s : string) : Js.split c s <> [].
Proof.
  destruct s as [|a s]; simpl; [discriminate |].
  destruct (Ascii.eqb a c); [discriminate |].
  destruct (Js.split c s); discriminate.
Qed.

Lemma includes_char_cons (c a : ascii) (s : string) :
  Js.includes (String c "") (String a s) =
    Ascii.eqb a c || Js.includes (String c "") s.
Proof.
  simpl. rewrite (Ascii.eqb_sym c a). now destruct (Ascii.eqb a c).
Qed.

Lemma split_without_separator (c : ascii) (s : string) :
  Js.includes (String c "") s = false -> Js.split c s = [s].
Proof.
  induction s as [|a s IH]; intros H; [reflexivity |].
  rewrite includes_char_cons in H. apply orb_false_iff in H as [Ha Hs].
  simpl. rewrite Ha, (IH Hs). reflexivity.
Qed.

(** A text that holds the separator splits into more than one piece. *)
Lemma split_with_separator (c : ascii) (stem seg : string) :
  forall piece, Js.split c (stem +:+ String c seg) <> [piece].
Proof.
  induction stem as [|b stem IH]; intros piece H.
  - rewrite app_nil in H. simpl in H. rewrite Ascii.eqb_refl in H.
    injection H as _ H. now apply split_nonempty in H.
  - rewrite app_cons in H. simpl in H. destruct (Ascii.eqb b c).
    + injection H as _ H. now apply split_nonempty in H.
    + destruct (Js.split c (stem +:+ String c seg)) as [|x xs] eqn:Hx;
        [now apply split_nonempty in Hx |].
      injection H as _ ->. now apply (IH x).
Qed.

Lemma last_cons_nonempty (x : string) (l : list string) (d : string) :
  l <> [] -> List.last (x :: l) d = List.last l d.
Proof. destruct l; [congruence | reflexivity]. Qed.

Lemma final_segment_split (filename : string) :
  final_segment filename (List.last (Js.split "." filename) "").
Proof.
  induction filename as [|a f IH]; [split; [reflexivity | now left] |].
  destruct IH as [Hdot Hshape].
  simpl. destruct (Ascii.eqb a ".") eqn:Ha.
  - apply Ascii.eqb_eq in Ha as ->.
    rewrite last_cons_nonempty by apply split_nonempty.
    split; [exact Hdot |]. right.
    destruct Hshape as [Heq | [stem Heq]].
    + exists "". now rewrite Heq at 1.
    + exists (String "." stem). now rewrite Heq at 1.
  - destruct (Js.split "." f) as [|seg0 segs] eqn:Hsplit;
      [now apply split_nonempty in Hsplit |].
    destruct segs as [|seg1 segs].
    + simpl in *. split.
      * rewrite includes_char_cons, Ha, Hdot. reflexivity.
      * left. f_equal.
        destruct Hshape as [Heq | [stem Heq]]; [exact Heq |].
        exfalso. subst f. now apply split_with_separator in Hsplit.
    + change (List.last (String a seg0 :: seg1 :: segs) "")
        with (List.last (seg1 :: segs) "").
      change (List.last (seg0 :: seg1 :: segs) "")
        with (List.last (seg1 :: segs) "") in Hdot, Hshape.
      split; [exact Hdot |]. right.
      destruct Hshape as [Heq | [stem Heq]].
      * exfalso. rewrite <- Heq in Hdot.
        apply split_without_separator in Hdot. congruence.
      * exists (String a stem). now rewrite Heq at 1.
Qed.





Section Facts.
Context {W : Type} {E : Env W}.
Variable options : Options.

(** ** Nodes without a [src] *)

Lemma getProp_no_src (node : Node.t) :
  has_no_src node -> getProp node "src" = None.
Proof.
  unfold has_no_src, getProp. intros H.
  destruct (List.find _ _) as [a|] eqn:Hfind; [| reflexivity].
  apply find_some in Hfind as [Hin Heq].
  apply String.eqb_eq in Heq. now apply H in Hin.
Qed.

(** C10. For a node without a [src] attribute (or without an attribute
    list) [getSrc] returns the singleton list of the empty descriptor, and
    resolution returns the Skip "The `src` is blank" without throwing and
    without touching the world; both rewriting steps then return the text
    and the offset they were given. *)
Theorem no_src_is_blank_skip (node : Node.t) (parentDir : string)
  (edited : Edited) (w : W) :
  has_no_src node ->
  getSrc node = ValList [Value.empty] /\
  getProcessingPathsForNode options node parentDir w
    = (Ok (Skip "The `src` is blank"), w) /\
  replaceInImg options edited node parentDir w = (Ok edited, w) /\
  replaceInComponent options edited node parentDir w
    = (Ok edited, console_error "The `src` is blank" w).
Proof.
  intros H. apply getProp_no_src in H.
  assert (Hsrc : getSrc node = ValList [Value.empty])
    by (unfold getSrc; now rewrite H).
  assert (Hskip : getProcessingPathsForNode options node parentDir w
                  = (Ok (Skip "The `src` is blank"), w))
    by (unfold getProcessingPathsForNode; rewrite Hsrc; reflexivity).
  repeat split; try assumption.
  - unfold replaceInImg, bind. rewrite Hskip. now destruct edited.
  - unfold replaceInComponent, bind. rewrite Hskip. now destruct edited.
Qed.

(** ** Parse failures *)


(** ** Variant generation *)

Lemma resize_result (size : Z) (paths : Paths) (meta : Meta.t)
  (w w' : W) (r : option Variant.t) :
  resize options size paths (Some meta) w = (Ok r, w') ->
  (Meta.width meta < size /\ r = None /\ w' = w) \/
  (size <= Meta.width meta /\
   exists v : Variant.t,
     r = Some v /\ Variant.size v = size /\
     Variant.filename v = r_outUrl (getResizePaths paths size)).
Proof.
  intros H. unfold resize in H. run.
  destruct (Meta.width meta <? size) eqn:Hw.
  - left. apply Z.ltb_lt in Hw. now simplify_eq.
  - right. apply Z.ltb_ge in Hw. split; [exact Hw |].
    repeat case_match; simplify_eq; eexists; repeat split.
Qed.

Lemma resize_too_wide (size : Z) (paths : Paths) (meta : Meta.t) (w : W) :
  Meta.width meta < size ->
  resize options size paths (Some meta) w = (Ok None, w).
Proof.
  intros H. unfold resize. run. apply Z.ltb_lt in H. now rewrite H.
Qed.

Lemma mapM_resize (paths : Paths) (meta : Meta.t) (candidates : list Z) :
  forall (w w' : W) (resized : list (option Variant.t)),
    mapM (fun size => resize options size paths (Some meta)) candidates w
      = (Ok resized, w') ->
    map Variant.size (filterBoolean resized) = List.filter (fits meta) candidates /\
    map Variant.filename (filterBoolean resized)
      = map (fun size => r_outUrl (getResizePaths paths size))
          (List.filter (fits meta) candidates).
Proof.
  induction candidates as [|size rest IH]; intros w w' resized H; simpl in H.
  - run. now simplify_eq.
  - run.
    destruct (resize options size paths (Some meta) w) as [[r|e] w1] eqn:Hr;
      [| discriminate].
    destruct (mapM _ rest w1) as [[rs|e] w2] eqn:Hrs; [| discriminate].
    simplify_eq. apply IH in Hrs as [IH1 IH2].
    apply resize_result in Hr as [(Hw & -> & _) | (Hw & v & -> & Hsize & Hname)];
      simpl.
    + assert (fits meta size = false) as -> by (unfold fits; lia). auto.
    + assert (fits meta size = true) as -> by (unfold fits; lia).
      simpl. rewrite Hsize, Hname, IH1, IH2. auto.
Qed.

Lemma Math_min_In (x : Z) (rest : list Z) : In (foldr Z.min x rest) (x :: rest).
Proof.
  induction rest as [|y rest IH]; simpl; [now left |].
  destruct (Z.min_spec y (foldr Z.min x rest)) as [[_ ->] | [_ ->]].
  - right. now left.
  - destruct IH as [IH | IH]; [now left | right; now right].
Qed.

Lemma gt_number_smallest (candidates : list Z) (width : Z) :
  (forall s, In s candidates -> width < s) ->
  gt_number (Math_min candidates) width = true.
Proof.
  intros H. destruct candidates as [|x rest]; [reflexivity |].
  simpl. apply Z.ltb_lt, H, Math_min_In.
Qed.

Lemma gt_number_false (candidates : list Z) (width : Z) :
  gt_number (Math_min candidates) width = false ->
  exists s, In s candidates /\ s <= width.
Proof.
  destruct candidates as [|x rest]; [discriminate |].
  simpl. intros H. apply Z.ltb_ge in H.
  exists (foldr Z.min x rest). split; [apply Math_min_In | exact H].
Qed.

Lemma createSizes_result (paths : Paths) (meta : Meta.t) (w w0 w' : W)
  (variants : list Variant.t) :
  sharp_metadata (inPath paths) w = (Ok meta, w0) ->
  createSizes options paths w = (Ok variants, w') ->
  map Variant.size variants = List.filter (fits meta) (candidateSizes options meta) /\
  map Variant.filename variants
    = map (fun size => r_outUrl (getResizePaths paths size))
        (List.filter (fits meta) (candidateSizes options meta)).
Proof.
  intros Hmeta H. unfold createSizes in H. run. rewrite Hmeta in H.
  fold (candidateSizes options meta) in H.
  destruct (mapM _ (candidateSizes options meta) w0) as [[rs|e] w1] eqn:Hrs;
    [| discriminate].
  simplify_eq. now apply mapM_resize in Hrs.
Qed.

(** C6. A configured target size that is strictly greater than the
    natural width of the source never appears in the VariantSet that
    [createSizes] returns: [resize] yields [null] for it and changes
    nothing, and the sizes of the returned variants are exactly the
    candidate sizes that fit, in their order - nothing takes the place of
    a dropped size. *)
Theorem createSizes_never_upscales (paths : Paths) (meta : Meta.t) (w w0 w' : W)
  (variants : list Variant.t) :
  sharp_metadata (inPath paths) w = (Ok meta, w0) ->
  createSizes options paths w = (Ok variants, w') ->
  (forall size : Z,
      Meta.width meta < size -> ~ In size (map Variant.size variants)) /\
  (forall (size : Z) (w1 : W),
      Meta.width meta < size ->
      resize options size paths (Some meta) w1 = (Ok None, w1)) /\
  map Variant.size variants = List.filter (fits meta) (candidateSizes options meta).
Proof.
  intros Hmeta H. destruct (createSizes_result _ _ _ _ _ _ Hmeta H) as [Hs _].
  repeat split.
  - intros size Hwide Hin. rewrite Hs in Hin.
    apply filter_In in Hin as [_ Hfit]. unfold fits in Hfit. lia.
  - intros size w1 Hwide. now apply resize_too_wide.
  - exact Hs.
Qed.

(** C7. When the natural width of the source is strictly below every
    configured target size, [createSizes] is one [resize] at the natural
    width: whenever that step returns, the VariantSet is exactly one
    variant, of that width; it is never empty. *)
Theorem createSizes_falls_back_to_natural_width (paths : Paths) (meta : Meta.t)
  (w w0 : W) :
  sharp_metadata (inPath paths) w = (Ok meta, w0) ->
  (forall size : Z, In size (sizes options) -> Meta.width meta < size) ->
  createSizes options paths w
    = (let* r := resize options (Meta.width meta) paths (Some meta) in
       ret (filterBoolean [r])) w0 /\
  (forall (r : option Variant.t) (w' : W),
      resize options (Meta.width meta) paths (Some meta) w0 = (Ok r, w') ->
      exists v : Variant.t,
        createSizes options paths w = (Ok [v], w') /\
        Variant.size v = Meta.width meta) /\
  (forall (variants : list Variant.t) (w' : W),
      createSizes options paths w = (Ok variants, w') ->
      exists v : Variant.t, variants = [v] /\ Variant.size v = Meta.width meta).
Proof.
  intros Hmeta Hsmall. apply gt_number_smallest in Hsmall.
  assert (Heq : createSizes options paths w
                = (let* r := resize options (Meta.width meta) paths (Some meta) in
                   ret (filterBoolean [r])) w0).
  { unfold createSizes. run. rewrite Hmeta, Hsmall. simpl. run.
    now destruct (resize _ _ _ _ w0) as [[r|e] w1]. }
  split; [exact Heq |]. split.
  - intros r w' Hr. rewrite Heq. run. rewrite Hr.
    apply resize_result in Hr as [(Hw & _) | (_ & v & -> & Hsize & _)]; [lia |].
    exists v. now split.
  - intros variants w' H. rewrite Heq in H. run.
    destruct (resize _ _ _ _ w0) as [[r|e] w1] eqn:Hr; [| discriminate].
    apply resize_result in Hr as [(Hw & _) | (_ & v & -> & Hsize & _)]; [lia |].
    simplify_eq. exists v. now split.
Qed.

End Facts.

(** ** Formatting the srcset *)

Section Formatting.
Context {W : Type} {E : Env W}.
Variable options : Options.

Lemma replaceAllChar_same (c : ascii) (s : string) :
  Js.replaceAllChar c (String c "") s = s.
Proof.
  induction s as [|a s IH]; [reflexivity |].
  simpl. rewrite IH. destruct (Ascii.eqb a c) eqn:Ha; [| reflexivity].
  apply Ascii.eqb_eq in Ha. now subst.
Qed.

(** Where the separator of paths is the slash, a URL is left as it is. *)
Lemma slashes_posix (filename : string) :
  path_sep = "/"%char -> slashes filename = filename.
Proof. intros H. unfold slashes. rewrite H. apply replaceAllChar_same. Qed.

Lemma two_variants (variants : list Variant.t) (s1 s2 : Z) (u1 u2 : string) :
  map Variant.size variants = [s1; s2] ->
  map Variant.filename variants = [u1; u2] ->
  exists v1 v2 : Variant.t,
    variants = [v1; v2] /\ Variant.filename v1 = u1 /\ Variant.filename v2 = u2.
Proof.
  intros Hs Hu. destruct variants as [|v1 [|v2 [|v3 rest]]]; try discriminate.
  exists v1, v2. injection Hu as -> ->. auto.
Qed.

(** C8. The srcset value is the comma-joined list of one entry per
    variant, in the order of the VariantSet; entry [i] is the URL of
    variant [i] (its path separators written as slashes), a space, the
    breakpoint at index [i] of the configured list, and [w]; where paths
    are separated by slashes the URL is taken as it is.  With sizes
    [400, 800, 1200], breakpoints [375, 768, 1024] and natural width 1000
    the value is [<url-400> 375w,<url-800> 768w]. *)
Theorem srcset_pairs_variants_with_breakpoints_by_index :
  (forall variants : list Variant.t,
      exists entries : list string,
        srcSetValue variants (srcsetLine options) = Js.join "," entries /\
        getSrcset variants (srcsetLine options) "srcset"
          = " srcset='" +:+ Js.join "," entries +:+ "' " /\
        length entries = length variants /\
        (forall (i : nat) (v : Variant.t) (breakpoint : Z),
            variants !! i = Some v ->
            breakpoints options !! i = Some breakpoint ->
            entries !! i =
              Some (slashes (Variant.filename v) +:+ " " +:+
                    Js.showZ breakpoint +:+ "w")))
  /\
  (forall (paths : Paths) (meta : Meta.t) (w w0 w' : W) (variants : list Variant.t),
      sizes options = [400; 800; 1200] ->
      breakpoints options = [375; 768; 1024] ->
      Meta.width meta = 1000 ->
      sharp_metadata (inPath paths) w = (Ok meta, w0) ->
      createSizes options paths w = (Ok variants, w') ->
      map Variant.size variants = [400; 800] /\
      srcSetValue variants (srcsetLine options)
        = slashes (r_outUrl (getResizePaths paths 400)) +:+ " 375w," +:+
          slashes (r_outUrl (getResizePaths paths 800)) +:+ " 768w")
  /\
  (path_sep = "/"%char -> forall url : string, slashes url = url).
Proof.
  split; [| split]; [| | intros Hsep url; now apply slashes_posix].
  - intros variants.
    exists (imap (fun i s => srcsetLine options s i) variants).
    split; [reflexivity |]. split; [reflexivity |].
    split; [apply length_imap |].
    intros i v breakpoint Hv Hb.
    rewrite list_lookup_imap, Hv. simpl. unfold srcsetLine. now rewrite Hb.
  - intros paths meta w w0 w' variants Hsizes Hbps Hwidth Hmeta Hcreate.
    destruct (createSizes_result options _ _ _ _ _ _ Hmeta Hcreate) as [Hs Hu].
    unfold candidateSizes in Hs, Hu. rewrite Hsizes, Hwidth in Hs, Hu.
    unfold fits in Hs, Hu. rewrite Hwidth in Hs, Hu. simpl in Hs, Hu.
    split; [exact Hs |].
    destruct (two_variants _ _ _ _ _ Hs Hu) as (v1 & v2 & -> & H1 & H2).
    unfold srcSetValue, srcsetLine. simpl. rewrite Hbps, H1, H2. simpl.
    rewrite !app_assoc_s. reflexivity.
Qed.

End Formatting.

(** ** The code on explicit inputs *)


Lemma no_src_is_blank_skip_witness :
  has_no_src Scenario.img_without_src /\
  getSrc Scenario.img_without_src = ValList [Value.empty] /\
  getProcessingPathsForNode (E := Scenario.parses []) defaults
    Scenario.img_without_src "/proj/src" Scenario.world_with_broken_image
    = (Ok (Skip "The `src` is blank"), Scenario.world_with_broken_image) /\
  replaceInImg (E := Scenario.parses []) defaults
    {| Edited.content := "<img alt='logo'>"; Edited.offset := 0 |}
    Scenario.img_without_src "/proj/src" Scenario.world_with_broken_image
    = (Ok {| Edited.content := "<img alt='logo'>"; Edited.offset := 0 |},
       Scenario.world_with_broken_image) /\
  replaceInComponent (E := Scenario.parses []) defaults
    {| Edited.content := "<img alt='logo'>"; Edited.offset := 0 |}
    Scenario.img_without_src "/proj/src" Scenario.world_with_broken_image
    = (Ok {| Edited.content := "<img alt='logo'>"; Edited.offset := 0 |},
       console_error (Env := Scenario.parses []) "The `src` is blank"
         Scenario.world_with_broken_image).
Proof.
  assert (H : has_no_src Scenario.img_without_src).
  { intros a [<- | []]. simpl. discriminate. }
  split; [exact H |].
  apply (no_src_is_blank_skip (E := Scenario.parses []) defaults
           Scenario.img_without_src "/proj/src" _ _ H).
Defined.

Lemma createSizes_never_upscales_witness :
  exists (meta : Meta.t) (w0 w' : Posix.World) (variants : list Variant.t),
    sharp_metadata (Env := Scenario.parses []) (inPath (Scenario.paths_of "/proj/src/fuji.jpg"))
      (Scenario.world_with_image "/proj/src/fuji.jpg" 1000 500) = (Ok meta, w0) /\
    createSizes (E := Scenario.parses []) defaults (Scenario.paths_of "/proj/src/fuji.jpg")
      (Scenario.world_with_image "/proj/src/fuji.jpg" 1000 500) = (Ok variants, w') /\
    Meta.width meta = 1000 /\
    map Variant.size variants = [400; 800] /\
    (forall size : Z,
        Meta.width meta < size -> ~ In size (map Variant.size variants)) /\
    (forall (size : Z) (w1 : Posix.World),
        Meta.width meta < size ->
        resize (E := Scenario.parses []) defaults size
          (Scenario.paths_of "/proj/src/fuji.jpg") (Some meta) w1 = (Ok None, w1)) /\
    map Variant.size variants = List.filter (fits meta) (candidateSizes defaults meta).
Proof.
  eexists _, _, _, _.
  split; [vm_compute; reflexivity |].
  split; [vm_compute; reflexivity |].
  split; [reflexivity |]. split; [reflexivity |].
  eapply (createSizes_never_upscales (E := Scenario.parses []) defaults
            (Scenario.paths_of "/proj/src/fuji.jpg") _
            (Scenario.world_with_image "/proj/src/fuji.jpg" 1000 500));
    vm_compute; reflexivity.
Defined.

Lemma createSizes_falls_back_to_natural_width_witness :
  exists (meta : Meta.t) (w0 w' : Posix.World),
    sharp_metadata (Env := Scenario.parses []) (inPath (Scenario.paths_of "/proj/src/small.jpg"))
      (Scenario.world_with_image "/proj/src/small.jpg" 300 150) = (Ok meta, w0) /\
    (forall size : Z, In size (sizes defaults) -> Meta.width meta < size) /\
    createSizes (E := Scenario.parses []) defaults (Scenario.paths_of "/proj/src/small.jpg")
      (Scenario.world_with_image "/proj/src/small.jpg" 300 150)
    = (Ok [Scenario.variant_of "/proj/src/small.jpg" 300 300 150], w') /\
    forall (variants : list Variant.t) (w'' : Posix.World),
      createSizes (E := Scenario.parses []) defaults (Scenario.paths_of "/proj/src/small.jpg")
        (Scenario.world_with_image "/proj/src/small.jpg" 300 150) = (Ok variants, w'') ->
      exists v : Variant.t, variants = [v] /\ Variant.size v = Meta.width meta.
Proof.
  eexists _, _, _.
  split; [vm_compute; reflexivity |].
  split; [simpl; intros size H; lia |].
  split; [vm_compute; reflexivity |].
  eapply (createSizes_falls_back_to_natural_width (E := Scenario.parses []) defaults
            (Scenario.paths_of "/proj/src/small.jpg") _
            (Scenario.world_with_image "/proj/src/small.jpg" 300 150)).
  - vm_compute; reflexivity.
  - simpl. intros size H. lia.
Defined.

Lemma srcset_pairs_variants_with_breakpoints_by_index_witness :
  exists (meta : Meta.t) (w0 w' : Posix.World) (variants : list Variant.t),
    sharp_metadata (Env := Scenario.parses []) (inPath (Scenario.paths_of "/proj/src/fuji.jpg"))
      (Scenario.world_with_image "/proj/src/fuji.jpg" 1000 500) = (Ok meta, w0) /\
    createSizes (E := Scenario.parses []) defaults (Scenario.paths_of "/proj/src/fuji.jpg")
      (Scenario.world_with_image "/proj/src/fuji.jpg" 1000 500) = (Ok variants, w') /\
    sizes defaults = [400; 800; 1200] /\
    breakpoints defaults = [375; 768; 1024] /\
    Meta.width meta = 1000 /\
    srcSetValue variants (srcsetLine (E := Scenario.parses []) defaults)
      = "g/fuji-400.jpg 375w,g/fuji-800.jpg 768w" /\
    map Variant.size variants = [400; 800] /\
    srcSetValue variants (srcsetLine (E := Scenario.parses []) defaults)
      = slashes (E := Scenario.parses [])
          (r_outUrl (getResizePaths (E := Scenario.parses [])
                       (Scenario.paths_of "/proj/src/fuji.jpg") 400))
        +:+ " 375w," +:+
        slashes (E := Scenario.parses [])
          (r_outUrl (getResizePaths (E := Scenario.parses [])
                       (Scenario.paths_of "/proj/src/fuji.jpg") 800))
        +:+ " 768w".
Proof.
  eexists _, _, _, _.
  split; [vm_compute; reflexivity |].
  split; [vm_compute; reflexivity |].
  split; [reflexivity |]. split; [reflexivity |]. split; [reflexivity |].
  split; [vm_compute; reflexivity |].
  eapply (proj1 (proj2 (srcset_pairs_variants_with_breakpoints_by_index
                          (E := Scenario.parses []) defaults))
            (Scenario.paths_of "/proj/src/fuji.jpg")
            {| Meta.width := 1000; Meta.height := 500; Meta.size := None |}
            (Scenario.world_with_image "/proj/src/fuji.jpg" 1000 500));
    vm_compute; reflexivity.
Defined.

(** ** Where the code departs from the specification *)

(** C3. The alternate-format line replaces the first [jpg], [png] and
    [jpeg] of the whole line, wherever they are.  For the source image
    [png-icon.jpg] the variant of size 400 has the URL
    [g/png-icon-400.jpg] and its WebP file is written to
    [png-icon-400.webp], but the line names [g/webp-icon-400.webp]: the
    base name is rewritten, and the line is not the URL with only its
    trailing extension changed. *)
Theorem srcsetLineWebp_rewrites_base_name :
  let paths := Scenario.paths_of "/proj/src/png-icon.jpg" in
  let v := Scenario.variant_of "/proj/src/png-icon.jpg" 400 400 200 in
  Variant.filename v = "g/png-icon-400.jpg" /\
  r_outPathWebp (getResizePaths (E := Scenario.parses []) paths 400)
    = "/proj/static/g/png-icon-400.webp" /\
  srcsetLine (E := Scenario.parses []) defaults v 0 = "g/png-icon-400.jpg 375w" /\
  srcsetLineWebp (E := Scenario.parses []) defaults v 0 = "g/webp-icon-400.webp 375w" /\
  srcsetLineWebp (E := Scenario.parses []) defaults v 0 <> "g/png-icon-400.webp 375w".
Proof. repeat split; try (vm_compute; reflexivity). vm_compute. discriminate. Qed.

Section Propagation.
Context {W : Type} {E : Env W}.
Variable options : Options.

(** Nothing in [replaceInComponent] catches: an exception of the variant
    generation is the exception of the step. *)
Lemma replaceInComponent_propagates (edited : Edited) (node : Node.t)
  (parentDir e : string) (paths : Paths) (w w1 w2 : W) :
  getProcessingPathsForNode options node parentDir w = (Ok (Process paths), w1) ->
  createSizes options paths w1 = (Throw e, w2) ->
  replaceInComponent options edited node parentDir w = (Throw e, w2).
Proof.
  intros Hd Hc. unfold replaceInComponent. run. now rewrite Hd, Hc.
Qed.

(** So the whole rewrite throws when the first image node is a component
    whose variants cannot be generated. *)
Lemma replaceImages_aborts (content parentDir e : string) (tree : Ast)
  (node : Node.t) (others : list Node.t) (paths : Paths) (w w1 w2 : W) :
  sourceDir_regexp_test (path_resolve [sourceDir options]) parentDir = true ->
  Js.includes "<img" content || Js.includes "<Image" content = true ->
  svelte_parse content = Ok tree ->
  List.filter (enter options) (svelte_walk (Some tree)) = node :: others ->
  is_string (Node.name node) "img" = false ->
  getProcessingPathsForNode options node parentDir w = (Ok (Process paths), w1) ->
  createSizes options paths w1 = (Throw e, w2) ->
  replaceImages options content parentDir w = (Throw e, w2).
Proof.
  intros Hdir Hmark Hparse Hnodes Hname Hd Hc.
  unfold replaceImages. rewrite Hdir, Hparse.
  apply orb_true_iff in Hmark.
  assert (negb (Js.includes "<img" content) && negb (Js.includes "<Image" content)
          = false) as ->
    by (destruct Hmark as [-> | ->]; [reflexivity | apply andb_false_r]).
  cbn [negb orb]. run. cbv beta iota. rewrite Hnodes.
  change (length (node :: others) =? 0)%nat with false. cbv beta iota.
  cbn [foldM]. run. rewrite Hname.
  now rewrite (replaceInComponent_propagates _ _ _ _ _ _ _ _ Hd Hc).
Qed.

(** [replaceInImg] catches what [optimize] throws, and keeps the text. *)
Lemma replaceInImg_recovers (edited : Edited) (node : Node.t)
  (parentDir e : string) (paths : Paths) (value : Value.t) (w w1 w2 : W) :
  getProcessingPathsForNode options node parentDir w = (Ok (Process paths), w1) ->
  firstValue (getSrc node) = Ok value ->
  optimize options paths w1 = (Throw e, w2) ->
  replaceInImg options edited node parentDir w = (Ok edited, console_error e w2).
Proof.
  intros Hd Hv Ho. unfold replaceInImg. run. rewrite Hd, Hv, Ho.
  now destruct edited.
Qed.

(** The file that a download returns is not read again: the existence
    checks are made on the URL itself. *)
Lemma downloaded_file_is_not_used (node : Node.t) (parentDir data file : string)
  (value : Value.t) (w w1 : W) :
  firstValue (getSrc node) = Ok value ->
  Value.type value = Some "Text" ->
  Value.data value = Some data ->
  fileHasCorrectExtension data (imgTagExtensions options) = true ->
  fileHasCorrectExtension data (componentExtensions options) = true ->
  IS_EXTERNAL data = true ->
  optimizeRemote options = true ->
  downloadImage data (sourceDir options) w = (Ok (Some file), w1) ->
  fs_existsSync (path_resolve [parentDir; data]) w1 = false ->
  fs_existsSync (path_resolve [sourceDir options; data]) w1 = false ->
  getProcessingPathsForNode options node parentDir w
    = (Ok (Skip ("The image file does not exist: " +:+
                 path_resolve [sourceDir options; data])), w1).
Proof.
  intros Hv Ht Hd Himg Hcomp Hext Hremote Hdown Hparent Hsource.
  assert (Hdata : nonBlank (Some data) = Some data).
  { destruct data as [|c data]; [discriminate | reflexivity]. }
  unfold getProcessingPathsForNode.
  rewrite Hv. run. cbv beta iota. rewrite Ht.
  change (is_string (Some "Text") "MustacheTag"
          || is_string (Some "Text") "AttributeShorthand") with false.
  cbv beta iota.
  rewrite Hd, Hdata, Himg, Hcomp, !andb_false_r. cbv beta iota.
  rewrite Hext, Hremote. change (negb true) with false. cbv beta iota.
  rewrite Hdown. cbv beta iota.
  rewrite Hparent. cbv beta iota. now rewrite Hsource.
Qed.

End Propagation.

(** C4. A backend failure while the variants of an image component are
    generated is not caught: for [<Image src='broken.jpg' />], whose file
    is there but cannot be decoded, the whole rewrite throws the error of
    the backend.  For the same file in a plain [<img>] the error is caught
    and the text is returned as it was. *)
Theorem backend_failure_in_component_aborts_rewrite :
  fst (replaceImages (E := Scenario.parses [Scenario.fragment; Scenario.component_node])
         defaults Scenario.component_markup "/proj/src"
         Scenario.world_with_broken_image)
    = Throw Posix.unsupported /\
  fst (replaceImages (E := Scenario.parses [Scenario.fragment; Scenario.img_node])
         defaults Scenario.img_markup "/proj/src"
         Scenario.world_with_broken_image)
    = Ok Scenario.img_markup.
Proof.
  split.
  - erewrite (replaceImages_aborts
                (E := Scenario.parses [Scenario.fragment; Scenario.component_node])
                defaults Scenario.component_markup "/proj/src" Posix.unsupported
                [Scenario.fragment; Scenario.component_node]
                Scenario.component_node [] (Scenario.paths_of "/proj/src/broken.jpg"));
      [reflexivity | vm_compute; reflexivity ..].
  - vm_compute. reflexivity.
Qed.

(** C5. A remote image that was downloaded with success is reported as
    missing: for [<img src='https://example.com/a.png'>], served as
    [image/png], the download stores the file in the source directory and
    returns its name, and the resolution then answers
    "The image file does not exist", having looked for the URL as a local
    path. *)
Theorem downloaded_remote_image_reported_missing :
  let w := Scenario.world_with_remote_image in
  let E := Scenario.parses [] in
  let downloaded := downloadImage (E := E) Scenario.remote_url (sourceDir defaults) w in
  let resolved :=
    getProcessingPathsForNode (E := E) defaults Scenario.remote_img_node
      "/proj/src/routes" w in
  IS_EXTERNAL Scenario.remote_url = true /\
  optimizeRemote defaults = true /\
  fst downloaded = Ok (Some "sha125.png") /\
  Posix.files (snd downloaded) !! "/proj/src/sha125.png" = Some "png bytes" /\
  resolved =
    (Ok (Skip "The image file does not exist: /proj/src/https:/example.com/a.png"),
     snd downloaded).
Proof.
  intros w E downloaded resolved.
  do 4 (split; [vm_compute; reflexivity |]).
  subst resolved.
  erewrite (downloaded_file_is_not_used (E := E) defaults Scenario.remote_img_node
              "/proj/src/routes" Scenario.remote_url "sha125.png");
    [vm_compute; reflexivity | vm_compute; reflexivity ..].
Qed.

(** * Further properties of main.js *)

(** ** Resolution of a node *)

Lemma is_string_true (x : option string) (s : string) :
  is_string x s = true <-> x = Some s.
Proof.
  destruct x as [y|]; simpl; [| split; discriminate].
  rewrite String.eqb_eq. split; congruence.
Qed.

Lemma is_string_false (x : option string) (s : string) :
  x <> Some s -> is_string x s = false.
Proof.
  intros H. destruct (is_string x s) eqn:Hx; [| reflexivity].
  now apply is_string_true in Hx.
Qed.

Lemma nonBlank_Some (data : string) : data <> "" -> nonBlank (Some data) = Some data.
Proof. destruct data; [congruence | reflexivity]. Qed.

Section Resolution.
Context {W : Type} {E : Env W}.
Variable options : Options.

Lemma skip_is_kept (edited : Edited) (node : Node.t) (parentDir reason : string)
  (w w' : W) :
  getProcessingPathsForNode options node parentDir w = (Ok (Skip reason), w') ->
  replaceInImg options edited node parentDir w = (Ok edited, w') /\
  replaceInComponent options edited node parentDir w
    = (Ok edited, console_error reason w').
Proof.
  intros H. unfold replaceInImg, replaceInComponent. run. rewrite H.
  now destruct edited.
Qed.

(** X1. A [src] whose descriptor is a mustache tag or an attribute
    shorthand is skipped before anything else is looked at: the world is
    not touched, and both rewriting steps keep the text and the offset. *)
Theorem dynamic_src_is_skipped (node : Node.t) (value : Value.t)
  (parentDir kind : string) (edited : Edited) (w : W) :
  firstValue (getSrc node) = Ok value ->
  Value.type value = Some kind ->
  kind = "MustacheTag" \/ kind = "AttributeShorthand" ->
  getProcessingPathsForNode options node parentDir w
    = (Ok (Skip ("Cannot process a dynamic value: " +:+ kind)), w) /\
  replaceInImg options edited node parentDir w = (Ok edited, w) /\
  replaceInComponent options edited node parentDir w
    = (Ok edited, console_error ("Cannot process a dynamic value: " +:+ kind) w).
Proof.
  intros Hv Ht Hkind.
  assert (H : getProcessingPathsForNode options node parentDir w
              = (Ok (Skip ("Cannot process a dynamic value: " +:+ kind)), w)).
  { unfold getProcessingPathsForNode. rewrite Hv. run. cbv beta iota. rewrite Ht.
    destruct Hkind as [-> | ->]; reflexivity. }
  split; [exact H |]. now apply skip_is_kept.
Qed.

(** X2. A static [src] whose extension is not in the allow-list of its
    kind of node is skipped without any access to the file system or the
    network: the [<img>] list for a node named [img], the component list
    for a node named as the configured tag. *)
Theorem disallowed_extension_is_skipped (node : Node.t) (value : Value.t)
  (parentDir data : string) (w : W) :
  static_src node value data ->
  (Node.name node = Some "img" ->
   fileHasCorrectExtension data (imgTagExtensions options) = false ->
   getProcessingPathsForNode options node parentDir w
     = (Ok (Skip ("The <img> tag was passed a file (" +:+ data +:+
                  ") whose extension is not one of " +:+
                  Js.join ", " (imgTagExtensions options))), w)) /\
  (Node.name node = Some (tagName options) ->
   tagName options <> "img" ->
   fileHasCorrectExtension data (componentExtensions options) = false ->
   getProcessingPathsForNode options node parentDir w
     = (Ok (Skip ("The " +:+ tagName options +:+ " component was passed a file (" +:+
                  data +:+ ") whose extension is not one of " +:+
                  Js.join ", " (componentExtensions options))), w)).
Proof.
  intros (Hv & Hm & Hs & Hd & Hne).
  apply is_string_false in Hm, Hs. pose proof (nonBlank_Some _ Hne) as Hnb.
  split.
  - intros Hname Hext. resolve_static Hv Hm Hs Hd Hnb.
    now rewrite Hname, Hext.
  - intros Hname Htag Hext. resolve_static Hv Hm Hs Hd Hnb.
    rewrite Hname, Hext.
    assert (is_string (Some (tagName options)) "img" = false) as ->
      by (apply is_string_false; congruence).
    assert (is_string (Some (tagName options)) (tagName options) = true) as ->
      by now apply is_string_true.
    reflexivity.
Qed.

Lemma gates_pass (node : Node.t) (data : string) :
  passes_gates options node data ->
  is_string (Node.name node) "img"
    && negb (fileHasCorrectExtension data (imgTagExtensions options)) = false /\
  is_string (Node.name node) (tagName options)
    && negb (fileHasCorrectExtension data (componentExtensions options)) = false.
Proof.
  intros [Himg Hcomp]. split.
  - destruct (is_string (Node.name node) "img") eqn:Hn; [| reflexivity].
    apply is_string_true in Hn. now rewrite (Himg Hn).
  - destruct (is_string (Node.name node) (tagName options)) eqn:Hn; [| reflexivity].
    apply is_string_true in Hn. now rewrite (Hcomp Hn).
Qed.

(** X3. With [optimizeRemote] off, an external [src] that passed the
    gates is skipped at once: nothing is downloaded and the world is not
    touched. *)
Theorem external_src_is_skipped_when_remote_is_off (node : Node.t) (value : Value.t)
  (parentDir data : string) (w : W) :
  static_src node value data ->
  passes_gates options node data ->
  IS_EXTERNAL data = true ->
  optimizeRemote options = false ->
  getProcessingPathsForNode options node parentDir w
    = (Ok (Skip ("The `src` is external: " +:+ data)), w).
Proof.
  intros (Hv & Hm & Hs & Hd & Hne) Hgates Hext Hremote.
  apply is_string_false in Hm, Hs. pose proof (nonBlank_Some _ Hne) as Hnb.
  destruct (gates_pass _ _ Hgates) as [Hg1 Hg2].
  resolve_static Hv Hm Hs Hd Hnb.
  now rewrite Hg1, Hg2, Hext, Hremote.
Qed.

(** X4. With [optimizeRemote] on, a download that throws is logged and
    the node is skipped as "not an image"; so is one that answers [null].
    Neither makes the resolution throw. *)
Theorem failed_download_is_skipped (node : Node.t) (value : Value.t)
  (parentDir data : string) (w w1 : W) :
  static_src node value data ->
  passes_gates options node data ->
  IS_EXTERNAL data = true ->
  optimizeRemote options = true ->
  (forall e : string,
      downloadImage data (sourceDir options) w = (Throw e, w1) ->
      getProcessingPathsForNode options node parentDir w
        = (Ok (Skip ("The url of is not an image: " +:+ data)), console_error e w1)) /\
  (downloadImage data (sourceDir options) w = (Ok None, w1) ->
   getProcessingPathsForNode options node parentDir w
     = (Ok (Skip ("The url of is not an image: " +:+ data)), w1)).
Proof.
  intros (Hv & Hm & Hs & Hd & Hne) Hgates Hext Hremote.
  apply is_string_false in Hm, Hs. pose proof (nonBlank_Some _ Hne) as Hnb.
  destruct (gates_pass _ _ Hgates) as [Hg1 Hg2].
  split.
  - intros e Hdown. resolve_static Hv Hm Hs Hd Hnb.
    rewrite Hg1, Hg2, Hext, Hremote. cbn [negb]. cbv beta iota.
    now rewrite Hdown.
  - intros Hdown. resolve_static Hv Hm Hs Hd Hnb.
    rewrite Hg1, Hg2, Hext, Hremote. cbn [negb]. cbv beta iota.
    now rewrite Hdown.
Qed.

(** X5. A local [src] is looked for beside the consuming file first and
    in the source directory second; the first that exists is the one that
    is staged, and when neither exists the node is skipped with the path
    in the source directory as the one that is missing. *)
Theorem local_src_is_resolved_parent_first (node : Node.t) (value : Value.t)
  (parentDir data : string) (w : W) :
  static_src node value data ->
  passes_gates options node data ->
  IS_EXTERNAL data = false ->
  let relativeToParent := path_resolve [parentDir; data] in
  let relativeToSource := path_resolve [sourceDir options; data] in
  (fs_existsSync relativeToParent w = true ->
   getProcessingPathsForNode options node parentDir w
     = willProcess options relativeToParent w) /\
  (fs_existsSync relativeToParent w = false ->
   fs_existsSync relativeToSource w = true ->
   getProcessingPathsForNode options node parentDir w
     = willProcess options relativeToSource w) /\
  (fs_existsSync relativeToParent w = false ->
   fs_existsSync relativeToSource w = false ->
   getProcessingPathsForNode options node parentDir w
     = (Ok (Skip ("The image file does not exist: " +:+ relativeToSource)), w)).
Proof.
  intros (Hv & Hm & Hs & Hd & Hne) Hgates Hext relativeToParent relativeToSource.
  apply is_string_false in Hm, Hs. pose proof (nonBlank_Some _ Hne) as Hnb.
  destruct (gates_pass _ _ Hgates) as [Hg1 Hg2].
  repeat split; intros; resolve_static Hv Hm Hs Hd Hnb;
    rewrite Hg1, Hg2, Hext; cbv beta iota;
    fold relativeToParent relativeToSource.
  - now rewrite H.
  - now rewrite H, H0.
  - now rewrite H, H0.
Qed.

End Resolution.

Section Decisions.
Context {W : Type} {E : Env W}.
Variable options : Options.

Lemma willProcess_result (nodeSrc : string) (w w' : W) (decision : Decision) :
  willProcess options nodeSrc w = (Ok decision, w') ->
  decision = Process (getPathsObject options nodeSrc).
Proof.
  unfold willProcess. run. intros H.
  repeat case_match; simplify_eq. reflexivity.
Qed.

Lemma is_string_false_inv (x : option string) (s : string) :
  is_string x s = false -> x <> Some s.
Proof. intros H Hx. apply is_string_true in Hx. congruence. Qed.

Lemma nonBlank_inv (x : option string) (data : string) :
  nonBlank x = Some data -> x = Some data /\ data <> "".
Proof.
  destruct x as [[|c s]|]; simpl; intros H; simplify_eq. split; [reflexivity | discriminate].
Qed.

(** X6. A node is only ever processed for a file that exists: when the
    resolution answers "process", the [src] is static text, the input path
    is that text resolved against the directory of the consuming file or
    against the source directory, this path existed when it was looked
    for, and the paths object is the one of this path.  In particular
    the input path is never the file that a download returned. *)
Theorem processed_src_is_an_existing_file (node : Node.t) (parentDir : string)
  (paths : Paths) (w w' : W) :
  getProcessingPathsForNode options node parentDir w = (Ok (Process paths), w') ->
  exists (value : Value.t) (data : string) (w1 : W),
    static_src node value data /\
    (inPath paths = path_resolve [parentDir; data] \/
     inPath paths = path_resolve [sourceDir options; data]) /\
    fs_existsSync (inPath paths) w1 = true /\
    (IS_EXTERNAL data = false -> w1 = w) /\
    paths = getPathsObject options (inPath paths) /\
    willProcess options (inPath paths) w1 = (Ok (Process paths), w').
Proof.
  intros H. unfold getProcessingPathsForNode in H. run.
  destruct (firstValue (getSrc node)) as [value|] eqn:Hv; [| discriminate].
  cbv beta iota in H.
  destruct (is_string (Value.type value) "MustacheTag"
            || is_string (Value.type value) "AttributeShorthand") eqn:Hdyn;
    [discriminate |].
  apply orb_false_iff in Hdyn as [Hm Hs]. apply is_string_false_inv in Hm, Hs.
  destruct (nonBlank (Value.data value)) as [data|] eqn:Hd; [| discriminate].
  apply nonBlank_inv in Hd as [Hd Hne].
  assert (Hstatic : static_src node value data) by (repeat split; assumption).
  destruct (is_string (Node.name node) "img" && _); [discriminate |].
  destruct (is_string (Node.name node) (tagName options) && _); [discriminate |].
  assert (Hrest : forall w1 : W,
             (if fs_existsSync (path_resolve [parentDir; data]) w1
              then willProcess options (path_resolve [parentDir; data])
              else
                fun w2 : W =>
                  (if fs_existsSync (path_resolve [sourceDir options; data]) w2
                   then willProcess options (path_resolve [sourceDir options; data])
                   else
                     fun w3 : W =>
                       (Ok (willNotProcess
                              ("The image file does not exist: " +:+
                               path_resolve [sourceDir options; data])), w3)) w2) w1
             = (Ok (Process paths), w') ->
             (inPath paths = path_resolve [parentDir; data] \/
              inPath paths = path_resolve [sourceDir options; data]) /\
             fs_existsSync (inPath paths) w1 = true /\
             paths = getPathsObject options (inPath paths) /\
             willProcess options (inPath paths) w1 = (Ok (Process paths), w')).
  { intros w1 Hw.
    destruct (fs_existsSync (path_resolve [parentDir; data]) w1) eqn:Hp.
    - pose proof (willProcess_result _ _ _ _ Hw) as Heq.
      injection Heq as ->. simpl. auto.
    - destruct (fs_existsSync (path_resolve [sourceDir options; data]) w1) eqn:Hsrc;
        [| discriminate].
      pose proof (willProcess_result _ _ _ _ Hw) as Heq.
      injection Heq as ->. simpl. auto. }
  destruct (IS_EXTERNAL data) eqn:Hext.
  - destruct (negb (optimizeRemote options));
      [cbv beta iota in H; unfold willNotProcess in H; discriminate |].
    cbv beta iota in H.
    destruct (downloadImage data (sourceDir options) w) as [[[file|]|e] w1] eqn:Hdown;
      cbv beta iota in H; try (unfold willNotProcess in H; discriminate).
    apply Hrest in H as (H1 & H2 & H3 & H4).
    exists value, data, w1. repeat split; try assumption. intros Hlocal. congruence.
  - cbv beta iota in H. apply Hrest in H as (H1 & H2 & H3 & H4).
    exists value, data, w. repeat split; assumption.
Qed.

(** X7. A [src] attribute without a value, or with an empty list of
    descriptors, makes the resolution throw before it looks at anything,
    and neither rewriting step catches it: both throw the same error and
    leave the world as it was. *)
Theorem src_without_descriptor_throws (node : Node.t) (parentDir : string)
  (edited : Edited) (w : W) :
  getProp node "src" = Some ValTrue \/ getProp node "src" = Some (ValList []) ->
  exists e : string,
    getProcessingPathsForNode options node parentDir w = (Throw e, w) /\
    replaceInImg options edited node parentDir w = (Throw e, w) /\
    replaceInComponent options edited node parentDir w = (Throw e, w).
Proof.
  intros H.
  assert (Hthrow : exists e, firstValue (getSrc node) = Throw e).
  { unfold getSrc. destruct H as [-> | ->]; eexists; reflexivity. }
  destruct Hthrow as [e He]. exists e.
  assert (Hres : getProcessingPathsForNode options node parentDir w = (Throw e, w))
    by (unfold getProcessingPathsForNode; rewrite He; reflexivity).
  split; [exact Hres |].
  unfold replaceInImg, replaceInComponent. run. now rewrite Hres.
Qed.

(** X8. [getProp] answers with the value of the first attribute of the
    given name - a later attribute of the same name is not looked at -
    and with [undefined] exactly when no attribute has the name. *)
Theorem getProp_first_attribute_wins (node : Node.t) (attr : string) :
  (forall (before after : list Attribute.t) (a : Attribute.t),
      Node.attributes node = Some (before ++ a :: after) ->
      Forall (fun b => Attribute.name b <> attr) before ->
      Attribute.name a = attr ->
      getProp node attr = Some (Attribute.value a)) /\
  (getProp node attr = None <->
   Forall (fun b => Attribute.name b <> attr) (default [] (Node.attributes node))).
Proof.
  split.
  - intros before after a Hattrs Hbefore Hname. unfold getProp.
    rewrite Hattrs. simpl. clear Hattrs.
    induction Hbefore as [|b before Hb _ IH]; simpl.
    + apply String.eqb_eq in Hname. now rewrite Hname.
    + apply String.eqb_neq in Hb. now rewrite Hb.
  - unfold getProp. split.
    + intros H. apply Forall_forall. intros b Hin Hname.
      destruct (List.find _ _) as [a|] eqn:Hfind; [discriminate |].
      apply list_elem_of_In in Hin.
      apply (find_none _ _ Hfind) in Hin.
      apply String.eqb_neq in Hin. contradiction.
    + intros H. destruct (List.find _ _) as [a|] eqn:Hfind; [| reflexivity].
      apply find_some in Hfind as [Hin Hname].
      apply String.eqb_eq in Hname.
      rewrite Forall_forall in H. apply list_elem_of_In in Hin.
      now apply H in Hin.
Qed.

End Decisions.

(** ** Downloads *)


Lemma split_at_separator (c : ascii) (first rest : string) :
  Js.includes (String c "") first = false ->
  Js.split c (first +:+ String c rest) = first :: Js.split c rest.
Proof.
  induction first as [|a first IH]; intros H.
  - rewrite app_nil. simpl. now rewrite Ascii.eqb_refl.
  - rewrite includes_char_cons in H. apply orb_false_iff in H as [Ha Hf].
    rewrite app_cons. simpl. rewrite Ha, (IH Hf). reflexivity.
Qed.

Lemma find_nothing (f : string -> bool) (names : list string) :
  Forall (fun name => f name = false) names -> List.find f names = None.
Proof.
  induction 1 as [|name names Hn _ IH]; simpl; [reflexivity |]. now rewrite Hn.
Qed.

Section Downloads.
Context {W : Type} {E : Env W}.


(** X10. When nothing is cached and the HEAD request declares the type
    [image/<ext>], the file is fetched into
    [resolve(folder, <hash>.<ext>)] and [<hash>.<ext>] is the answer; an
    error of the transfer is the error of [downloadImage]. *)
Theorem downloadImage_names_file_after_content_type (url folder ext : string)
  (names : list string) (w w1 w2 : W) :
  fs_readdirSync folder w = (Ok names, w1) ->
  Forall (fun name => Js.startsWith (sha1_hex url) name = false) names ->
  axios_head url w1 = (Ok (Some ("image/" +:+ ext)), w2) ->
  Js.includes "/" ext = false ->
  let filename := sha1_hex url +:+ "." +:+ ext in
  downloadImage url folder w
    = (axios_download url (path_resolve [folder; filename]) ;;;
       ret (Some filename)) w2.
Proof.
  intros Hdir Hnone Hhead Hext filename.
  pose proof (find_nothing _ _ Hnone) as Hfind.
  unfold downloadImage. run. rewrite Hdir, Hfind. cbn [nonBlank]. cbv beta iota.
  rewrite Hhead.
  change ("image/" +:+ ext) with ("image" +:+ String "/" ext).
  rewrite split_at_separator by reflexivity.
  rewrite (split_without_separator "/" ext Hext).
  reflexivity.
Qed.

(** X11. When nothing is cached and the declared type is not an image
    type, [downloadImage] answers [null] and fetches nothing; when the
    response has no content type at all it throws. *)
Theorem downloadImage_refuses_other_content (url folder : string)
  (names : list string) (w w1 w2 : W) :
  fs_readdirSync folder w = (Ok names, w1) ->
  Forall (fun name => Js.startsWith (sha1_hex url) name = false) names ->
  (forall type rest : string,
      axios_head url w1 = (Ok (Some (type +:+ String "/" rest)), w2) ->
      Js.includes "/" type = false ->
      type <> "image" ->
      downloadImage url folder w = (Ok None, w2)) /\
  (axios_head url w1 = (Ok None, w2) ->
   exists e : string, downloadImage url folder w = (Throw e, w2)).
Proof.
  intros Hdir Hnone.
  pose proof (find_nothing _ _ Hnone) as Hfind.
  split.
  - intros type rest Hhead Htype Hne.
    unfold downloadImage. run. rewrite Hdir, Hfind. cbn [nonBlank]. cbv beta iota.
    rewrite Hhead, split_at_separator by exact Htype.
    assert (is_string (Some type) "image" = false) as Hno
      by (apply is_string_false; congruence).
    simpl. simpl in Hno. now rewrite Hno.
  - intros Hhead. eexists.
    unfold downloadImage. run. rewrite Hdir, Hfind. cbn [nonBlank]. cbv beta iota.
    rewrite Hhead. reflexivity.
Qed.

End Downloads.

(** ** More on the Text Patcher *)

Lemma take_length_app (p r : string) : Js.take (String.length p) (p +:+ r) = p.
Proof.
  rewrite <- (Nat.add_0_r (String.length p)), take_app.
  destruct r; simpl; apply app_empty_r.
Qed.

Lemma drop_length_app (p r : string) : Js.drop (String.length p) (p +:+ r) = r.
Proof. rewrite <- (Nat.add_0_r (String.length p)), drop_app. reflexivity. Qed.

(** [insert] on a text given as the part before the range, the range and
    the part after it. *)
Lemma insert_at (before cut after value : string) (start end_ offset : Z) :
  Js.len before = start + offset ->
  Js.len cut = end_ - start ->
  insert (before +:+ cut +:+ after) value start end_ offset
    = {| Edited.content := before +:+ value +:+ after;
         Edited.offset := offset + Js.len value - (end_ - start) |}.
Proof.
  intros Hb Hc.
  rewrite insert_in_range
    by (unfold Js.len in *; rewrite ?length_app; lia).
  f_equal. f_equal.
  - replace (Z.to_nat (start + offset)) with (String.length before)
      by (unfold Js.len in Hb; lia).
    apply take_length_app.
  - f_equal.
    replace (Z.to_nat (end_ + offset))
      with (String.length (before +:+ cut))
      by (rewrite length_app; unfold Js.len in *; lia).
    rewrite <- app_assoc_s. apply drop_length_app.
Qed.

Lemma range_decomposition (content : string) (start end_ offset : Z) :
  0 <= start + offset -> start <= end_ -> end_ + offset <= Js.len content ->
  exists before cut after : string,
    content = before +:+ cut +:+ after /\
    Js.len before = start + offset /\
    Js.len cut = end_ - start.
Proof.
  intros H1 H2 H3.
  exists (Js.take (Z.to_nat (start + offset)) content),
    (Js.take (Z.to_nat (end_ - start))
       (Js.drop (Z.to_nat (start + offset)) content)),
    (Js.drop (Z.to_nat (end_ + offset)) content).
  repeat split.
  - rewrite <- (take_drop (Z.to_nat (start + offset)) content) at 1.
    f_equal.
    rewrite <- (take_drop (Z.to_nat (end_ - start))
                  (Js.drop (Z.to_nat (start + offset)) content)) at 1.
    f_equal. rewrite drop_drop. f_equal. lia.
  - unfold Js.len in *. rewrite length_take. lia.
  - unfold Js.len in *. rewrite length_take, length_drop. lia.
Qed.

(** X12. An [insert] inside the text can be undone: putting the text that
    was cut back over the range that the value now takes gives the text
    and the offset from before; and an [insert] of the very text that is
    in the range changes nothing. *)
Theorem insert_can_be_undone (content value : string) (start end_ offset : Z) :
  0 <= start + offset -> start <= end_ -> end_ + offset <= Js.len content ->
  let cut := Js.substr content (start + offset) (Some (end_ - start)) in
  let edited := insert content value start end_ offset in
  insert content cut start end_ offset
    = {| Edited.content := content; Edited.offset := offset |} /\
  insert (Edited.content edited) cut start (start + Js.len value) offset
    = {| Edited.content := content;
         Edited.offset := offset + (end_ - start) - Js.len value |}.
Proof.
  intros H1 H2 H3 cut edited.
  destruct (range_decomposition content start end_ offset H1 H2 H3)
    as (before & old & after & Hcontent & Hb & Ho).
  assert (Hnew : Edited.content (insert content value start end_ offset)
                 = before +:+ value +:+ after)
    by (rewrite Hcontent, insert_at by assumption; reflexivity).
  assert (Hcut : cut = old).
  { subst cut. unfold Js.substr.
    destruct (start + offset <? 0) eqn:Hneg; [lia |].
    rewrite (Z.min_l (start + offset)), (Z.max_l (end_ - start) 0),
      (Z.min_l (end_ - start)), Z.min_l by lia.
    replace (start + offset + (end_ - start) - (start + offset))
      with (end_ - start) by lia.
    rewrite Hcontent.
    replace (Z.to_nat (start + offset)) with (String.length before)
      by (unfold Js.len in Hb; lia).
    rewrite drop_length_app.
    replace (Z.to_nat (end_ - start)) with (String.length old)
      by (unfold Js.len in Ho; lia).
    apply take_length_app. }
  split.
  - rewrite Hcut, Hcontent, insert_at by assumption.
    f_equal. lia.
  - subst edited. rewrite Hnew, Hcut, insert_at by (assumption || lia).
    rewrite <- Hcontent. f_equal. lia.
Qed.

(** ** More on variants, and the rewriting steps *)

Section Steps.
Context {W : Type} {E : Env W}.
Variable options : Options.

Lemma createSizes_metadata (paths : Paths) (w w' : W) (variants : list Variant.t) :
  createSizes options paths w = (Ok variants, w') ->
  exists (meta : Meta.t) (w0 : W), sharp_metadata (inPath paths) w = (Ok meta, w0).
Proof.
  unfold createSizes. run. intros H.
  destruct (sharp_metadata (inPath paths) w) as [[meta|e] w0]; [| discriminate].
  now exists meta, w0.
Qed.

Lemma candidates_that_fit (meta : Meta.t) :
  List.filter (fits meta) (candidateSizes options meta) <> [].
Proof.
  unfold candidateSizes.
  destruct (gt_number (Math_min (sizes options)) (Meta.width meta)) eqn:Hgt.
  - simpl. unfold fits. now rewrite Z.leb_refl.
  - apply gt_number_false in Hgt as (s & Hin & Hle).
    intros Hnil.
    assert (Hs : In s (List.filter (fits meta) (sizes options)))
      by (apply filter_In; split; [exact Hin | unfold fits; lia]).
    rewrite Hnil in Hs. contradiction.
Qed.

(** X13. Whenever [createSizes] returns, the VariantSet is not empty, for
    any list of configured sizes (also the empty one); so the [sizes[0]]
    that [replaceInComponent] reads is always there.  Every variant is
    named after its own size: its [filename] is the output URL of
    [getResizePaths] for its [size]. *)
Theorem createSizes_returns_named_variants (paths : Paths) (w w' : W)
  (variants : list Variant.t) :
  createSizes options paths w = (Ok variants, w') ->
  variants <> [] /\
  Forall (fun v => Variant.filename v
                   = r_outUrl (getResizePaths paths (Variant.size v))) variants.
Proof.
  intros H. destruct (createSizes_metadata _ _ _ _ H) as (meta & w0 & Hmeta).
  destruct (createSizes_result options _ _ _ _ _ _ Hmeta H) as [Hs Hu].
  split.
  - intros ->. simpl in Hs. symmetry in Hs. now apply candidates_that_fit in Hs.
  - rewrite <- Hs in Hu. clear -Hu.
    induction variants as [|v variants IH]; constructor.
    + now injection Hu.
    + apply IH. now injection Hu.
Qed.

(** X14. [optimize] answers with one of two things: for a file smaller
    than a non-zero [inlineBelow], the data URI that [getBase64] makes of
    it, and then nothing but [getBase64] has run after the size was read
    (no directory is made, no file written); otherwise the output URL of
    the paths object.  With [inlineBelow] zero nothing is ever inlined. *)
Theorem optimize_inlines_below_threshold (paths : Paths) (w w' : W) (uri : string) :
  optimize options paths w = (Ok uri, w') ->
  exists (size : Z) (w1 : W),
    fs_statSync_size (inPath paths) w = (Ok size, w1) /\
    ((inlineBelow options <> 0 /\ size < inlineBelow options /\
      getBase64 (inPath paths) true w1 = (Ok uri, w') /\
      Js.startsWith "data:image/png;base64," uri = true)
     \/
     ((inlineBelow options = 0 \/ inlineBelow options <= size) /\
      uri = outUrl paths)).
Proof.
  unfold optimize. run. intros H.
  destruct (fs_statSync_size (inPath paths) w) as [[size|e] w1]; [| discriminate].
  exists size, w1. split; [reflexivity |].
  destruct (negb (inlineBelow options =? 0) && (size <? inlineBelow options)) eqn:Hc.
  - left. apply andb_true_iff in Hc as [Hz Hlt].
    apply negb_true_iff, Z.eqb_neq in Hz. apply Z.ltb_lt in Hlt.
    repeat split; try assumption.
    unfold getBase64 in H. run.
    repeat case_match; simplify_eq. reflexivity.
  - right. apply andb_false_iff in Hc. split.
    + destruct Hc as [Hz | Hge].
      * left. apply negb_false_iff, Z.eqb_eq in Hz. exact Hz.
      * right. apply Z.ltb_ge in Hge. exact Hge.
    + repeat case_match; simplify_eq. reflexivity.
Qed.

Lemma resolution_reads_descriptor (node : Node.t) (parentDir : string)
  (decision : Decision) (w w' : W) :
  getProcessingPathsForNode options node parentDir w = (Ok decision, w') ->
  exists value : Value.t, firstValue (getSrc node) = Ok value.
Proof.
  unfold getProcessingPathsForNode. run. intros H.
  destruct (firstValue (getSrc node)) as [value|e]; [| discriminate].
  now exists value.
Qed.

Lemma replaceInImg_throws (edited : Edited) (node : Node.t) (parentDir e : string)
  (w w' : W) :
  replaceInImg options edited node parentDir w = (Throw e, w') ->
  getProcessingPathsForNode options node parentDir w = (Throw e, w').
Proof.
  intros H. unfold replaceInImg in H. run.
  destruct (getProcessingPathsForNode options node parentDir w)
    as [[[reason|paths]|e0] w1] eqn:Hres; simplify_eq; [| reflexivity].
  destruct (resolution_reads_descriptor _ _ _ _ _ Hres) as [value Hv].
  rewrite Hv in H. cbv beta iota in H.
  destruct (optimize options paths w1) as [[uri|e1] w2]; discriminate.
Qed.

Lemma replaceInImg_returns (edited edited' : Edited) (node : Node.t)
  (parentDir : string) (w w' : W) :
  replaceInImg options edited node parentDir w = (Ok edited', w') ->
  edited' = edited \/
  exists (paths : Paths) (uri : string) (w1 w2 : W),
    getProcessingPathsForNode options node parentDir w = (Ok (Process paths), w1) /\
    optimize options paths w1 = (Ok uri, w2) /\
    edited' = applyEditsFrom edited [src_edit node uri].
Proof.
  intros H. unfold replaceInImg in H. run.
  destruct (getProcessingPathsForNode options node parentDir w)
    as [[[reason|paths]|e0] w1] eqn:Hres; simplify_eq.
  - left. now destruct edited.
  - destruct (resolution_reads_descriptor _ _ _ _ _ Hres) as [value Hv].
    rewrite Hv in H. cbv beta iota in H.
    destruct (optimize options paths w1) as [[uri|e1] w2] eqn:Hopt; simplify_eq.
    + right. exists paths, uri, w1, w'.
      split; [reflexivity |]. split; [exact Hopt |].
      unfold applyEditsFrom, src_edit. now rewrite Hv.
    + left. now destruct edited.
Qed.

(** X15. [replaceInImg] throws only when the resolution of the node
    throws, with that error; whatever [optimize] throws is caught.  When
    it returns, the text is the one it was given, or that text with the
    [src] value replaced by what [optimize] answered - one [insert] over
    the range of the descriptor. *)
Theorem replaceInImg_only_rewrites_src (edited : Edited) (node : Node.t)
  (parentDir : string) (w w' : W) :
  (forall e : string,
      replaceInImg options edited node parentDir w = (Throw e, w') ->
      getProcessingPathsForNode options node parentDir w = (Throw e, w')) /\
  (forall edited' : Edited,
      replaceInImg options edited node parentDir w = (Ok edited', w') ->
      edited' = edited \/
      exists (paths : Paths) (uri : string) (w1 w2 : W),
        getProcessingPathsForNode options node parentDir w = (Ok (Process paths), w1) /\
        optimize options paths w1 = (Ok uri, w2) /\
        edited' = applyEditsFrom edited [src_edit node uri]).
Proof.
  split.
  - intros e. apply replaceInImg_throws.
  - intros edited'. apply replaceInImg_returns.
Qed.

End Steps.

Section Component.
Context {W : Type} {E : Env W}.
Variable options : Options.

Lemma createSizes_nonempty (paths : Paths) (w w' : W) (variants : list Variant.t) :
  createSizes options paths w = (Ok variants, w') -> variants <> [].
Proof.
  intros H. destruct (createSizes_metadata options _ _ _ _ H) as (meta & w0 & Hmeta).
  destruct (createSizes_result options _ _ _ _ _ _ Hmeta H) as [Hs _].
  intros ->. simpl in Hs. symmetry in Hs.
  now apply (candidates_that_fit options) in Hs.
Qed.

(** An attribute text of [getSrcset] ends with a space. *)
Lemma getSrcset_ends_with_space (variants : list Variant.t)
  (lineFn : Variant.t -> nat -> string) (tag : string) :
  getSrcset variants lineFn tag
    = (" " +:+ tag +:+ "='" +:+ srcSetValue variants lineFn +:+ "'") +:+ " ".
Proof. unfold getSrcset. rewrite !app_assoc_s. reflexivity. Qed.

Lemma len_cons (c : ascii) (s : string) : Js.len (String c s) = 1 + Js.len s.
Proof. unfold Js.len. simpl. lia. Qed.

Lemma len_empty : Js.len "" = 0.
Proof. reflexivity. Qed.

(** Replacing the one character after a finished part. *)
Lemma insert_over_char (done after value : string) (c : ascii) (position offset : Z) :
  Js.len done = position + offset ->
  insert (done +:+ String c after) value position (position + 1) offset
    = {| Edited.content := done +:+ value +:+ after;
         Edited.offset := offset + Js.len value - 1 |}.
Proof.
  intros H.
  change (done +:+ String c after) with (done +:+ String c "" +:+ after).
  rewrite insert_at; [f_equal; lia | exact H | rewrite len_cons, len_empty; lia].
Qed.

(** X16. What [replaceInComponent] does to the text when the node is
    processed: the [src] value is replaced by the placeholder, and the one
    character that follows the closing quote of the attribute is replaced
    by the new attributes [srcset], [ratio] and (with [webp]) [srcsetWebp];
    each later attribute takes the place of the trailing space of the one
    before.  Everything before the value and after that character is kept,
    and the offset grows by the change of length. *)
Theorem replaceInComponent_rewrites_src_and_next_character
  (edited : Edited) (node : Node.t) (parentDir : string) (paths : Paths)
  (variants : list Variant.t) (value : Value.t)
  (base64 before old after : string) (quote next : ascii) (w w1 w2 w3 : W) :
  getProcessingPathsForNode options node parentDir w = (Ok (Process paths), w1) ->
  createSizes options paths w1 = (Ok variants, w2) ->
  (if String.eqb (placeholder options) "blur"
   then getBase64 (inPath paths) false
   else getTrace options (inPath paths)) w2 = (Ok base64, w3) ->
  firstValue (getSrc node) = Ok value ->
  Edited.content edited = before +:+ old +:+ String quote (String next after) ->
  Js.len before = Value.start value + Edited.offset edited ->
  Js.len old = Value.end_ value - Value.start value ->
  exists (first : Variant.t) (edited' : Edited),
    head variants = Some first /\
    replaceInComponent options edited node parentDir w = (Ok edited', w3) /\
    Edited.content edited'
      = before +:+ base64 +:+
        String quote
          ((" srcset='" +:+ srcSetValue variants (srcsetLine options) +:+ "'") +:+
           (" ratio='" +:+
            ratio_percent (Variant.width first) (Variant.height first) +:+ "%'") +:+
           (if webp options
            then " srcsetWebp='" +:+ srcSetValue variants (srcsetLineWebp options)
                 +:+ "' "
            else " ") +:+
           after) /\
    Edited.offset edited'
      = Edited.offset edited
        + (Js.len (Edited.content edited') - Js.len (Edited.content edited)).
Proof.
  intros Hres Hsizes Hplace Hv Hcontent Hb Ho.
  destruct variants as [|first rest];
    [now apply createSizes_nonempty in Hsizes |].
  remember (first :: rest) as variants eqn:Hvariants.
  set (a1 := " srcset='" +:+ srcSetValue variants (srcsetLine options) +:+ "'").
  set (a2 := " ratio='" +:+
             ratio_percent (Variant.width first) (Variant.height first) +:+ "%'").
  set (a3 := " srcsetWebp='" +:+ srcSetValue variants (srcsetLineWebp options) +:+ "' ").
  assert (H1 : getSrcset variants (srcsetLine options) "srcset" = a1 +:+ " ")
    by (rewrite getSrcset_ends_with_space; reflexivity).
  assert (H2 : " ratio='" +:+
               ratio_percent (Variant.width first) (Variant.height first) +:+ "%' "
               = a2 +:+ " ")
    by (subst a2; rewrite !app_assoc_s; reflexivity).
  assert (H3 : getSrcset variants (srcsetLineWebp options) "srcsetWebp" = a3)
    by reflexivity.
  set (done := before +:+ base64 +:+ String quote "").
  assert (Hdone : Js.len done
                  = Value.end_ value + 1
                    + (Edited.offset edited + Js.len base64
                       - (Value.end_ value - Value.start value))).
  { subst done. rewrite !len_app, len_cons, len_empty. lia. }
  (* the four inserts, one after the other *)
  assert (I1 : insert (Edited.content edited) base64 (Value.start value)
                 (Value.end_ value) (Edited.offset edited)
               = {| Edited.content := done +:+ String next after;
                    Edited.offset := Edited.offset edited + Js.len base64
                                     - (Value.end_ value - Value.start value) |}).
  { rewrite Hcontent, insert_at by assumption. subst done.
    rewrite !app_assoc_s. reflexivity. }
  assert (I2 : forall off,
             Js.len done = Value.end_ value + 1 + off ->
             insert (done +:+ String next after) (a1 +:+ " ") (Value.end_ value + 1)
               (Value.end_ value + 2) off
             = {| Edited.content := (done +:+ a1) +:+ String " " after;
                  Edited.offset := off + Js.len (a1 +:+ " ") - 1 |}).
  { intros off Hoff.
    replace (Value.end_ value + 2) with (Value.end_ value + 1 + 1) by lia.
    rewrite insert_over_char by exact Hoff. rewrite !app_assoc_s. reflexivity. }
  assert (I3 : forall (part attribute : string) off,
             Js.len part = Value.end_ value + 1 + off ->
             insert (part +:+ String " " after) attribute (Value.end_ value + 1)
               (Value.end_ value + 2) off
             = {| Edited.content := part +:+ attribute +:+ after;
                  Edited.offset := off + Js.len attribute - 1 |}).
  { intros part attribute off Hoff.
    replace (Value.end_ value + 2) with (Value.end_ value + 1 + 1) by lia.
    now rewrite insert_over_char. }
  unfold replaceInComponent. run. rewrite Hres, Hsizes, Hplace, Hv.
  cbv beta iota zeta.
  assert (Hmatch : forall (A : Type) (none : A) (some : Variant.t -> A),
             match variants with [] => none | v :: _ => some v end = some first)
    by (intros; now rewrite Hvariants).
  rewrite Hmatch. clear Hmatch.
  rewrite H1, H2, H3, I1. cbn [Edited.content Edited.offset].
  rewrite I2 by exact Hdone. cbn [Edited.content Edited.offset].
  rewrite I3 by (rewrite !len_app, ?len_cons, ?len_empty in *; lia).
  cbn [Edited.content Edited.offset].
  assert (Hshape : (done +:+ a1) +:+ (a2 +:+ " ") +:+ after
                   = ((done +:+ a1) +:+ a2) +:+ String " " after)
    by (rewrite !app_assoc_s; reflexivity).
  exists first.
  destruct (webp options); cbn [negb]; cbv beta iota.
  - rewrite Hshape, I3 by (rewrite !len_app, ?len_cons, ?len_empty in *; lia).
    eexists. split; [now rewrite Hvariants |]. split; [reflexivity |].
    cbn [Edited.content Edited.offset]. split.
    + subst done a1 a2 a3. rewrite !app_assoc_s. reflexivity.
    + rewrite Hcontent. subst done.
      rewrite !len_app, ?len_cons, ?len_empty in *. lia.
  - eexists. split; [now rewrite Hvariants |]. split; [reflexivity |].
    cbn [Edited.content Edited.offset]. split.
    + subst done a1 a2 a3. rewrite !app_assoc_s. reflexivity.
    + rewrite Hcontent. subst done.
      rewrite !len_app, ?len_cons, ?len_empty in *. lia.
Qed.

End Component.

(** ** Whole documents *)

Lemma src_edit_start (node : Node.t) (uri uri' : string) :
  Edit.start (src_edit node uri) = Edit.start (src_edit node uri') /\
  Edit.end_ (src_edit node uri) = Edit.end_ (src_edit node uri').
Proof. unfold src_edit. now destruct (firstValue (getSrc node)). Qed.

Lemma edits_sorted_lower (lo lo' size : Z) (edits : list EditOperation) :
  lo' <= lo -> edits_sorted lo size edits -> edits_sorted lo' size edits.
Proof.
  intros Hle. destruct edits as [|e rest]; simpl; intros H.
  - lia.
  - destruct H as (H1 & H2 & H3). repeat split; [lia | exact H2 | exact H3].
Qed.

Lemma edits_sorted_sublist (edits chosen : list EditOperation) (size : Z) :
  sublist chosen edits ->
  forall lo, edits_sorted lo size edits -> edits_sorted lo size chosen.
Proof.
  induction 1 as [|e chosen edits _ IH|e chosen edits _ IH]; intros lo H.
  - exact H.
  - destruct H as (H1 & H2 & H3). simpl. auto.
  - destruct H as (H1 & H2 & H3).
    apply (edits_sorted_lower (Edit.end_ e)); [lia | auto].
Qed.

Lemma edits_sorted_positions (picked : list (Node.t * string)) (size : Z) :
  forall lo,
    edits_sorted lo size (map (fun node => src_edit node "") (map fst picked)) ->
    edits_sorted lo size (src_edits picked).
Proof.
  induction picked as [|[node uri] picked IH]; intros lo H; [exact H |].
  simpl in *. destruct (src_edit_start node uri "") as [-> ->].
  destruct H as (H1 & H2 & H3). auto.
Qed.

Lemma sublist_map {A B : Type} (f : A -> B) (chosen all : list A) :
  sublist chosen all -> sublist (map f chosen) (map f all).
Proof. induction 1; simpl; now constructor. Qed.

Section Documents.
Context {W : Type} {E : Env W}.
Variable options : Options.

Lemma replaceImages_steps (content parentDir : string) (w : W) :
  replaceImages options content parentDir w = (Ok content, w) \/
  exists w0 : W,
    (w0 = w \/ exists e, w0 = console_error e w) /\
    replaceImages options content parentDir w
    = (if (length (imageNodes options content) =? 0)%nat
       then ret content
       else
         let* processed :=
           foldM
             (fun edited node =>
                if is_string (Node.name node) "img"
                then replaceInImg options edited node parentDir
                else replaceInComponent options edited node parentDir)
             (imageNodes options content)
             {| Edited.content := content; Edited.offset := 0 |} in
         ret (Edited.content processed)) w0.
Proof.
  unfold replaceImages, imageNodes, parsedTree.
  destruct (negb (sourceDir_regexp_test _ _) || _); [now left |].
  right. destruct (svelte_parse content) as [tree|e]; run; cbv beta iota.
  - exists w. split; [now left | reflexivity].
  - eexists. split; [right; eexists; reflexivity | reflexivity].
Qed.

Lemma img_nodes_become_edits (parentDir : string) (nodes : list Node.t) :
  Forall (fun node => Node.name node = Some "img") nodes ->
  forall (edited edited' : Edited) (w w' : W),
    foldM
      (fun edited node =>
         if is_string (Node.name node) "img"
         then replaceInImg options edited node parentDir
         else replaceInComponent options edited node parentDir)
      nodes edited w = (Ok edited', w') ->
    exists picked : list (Node.t * string),
      sublist (map fst picked) nodes /\
      edited' = applyEditsFrom edited (src_edits picked).
Proof.
  induction 1 as [|node nodes Hname _ IH]; intros edited edited' w w' H; simpl in H.
  - run. simplify_eq. exists []. split; [constructor | reflexivity].
  - run. apply is_string_true in Hname. rewrite Hname in H.
    destruct (replaceInImg options edited node parentDir w) as [[edited1|e] w1] eqn:Hstep;
      [| discriminate].
    apply IH in H as (picked & Hsub & ->).
    apply replaceInImg_returns in Hstep
      as [-> | (paths & uri & _ & _ & _ & _ & ->)].
    + exists picked. split; [now constructor | reflexivity].
    + exists ((node, uri) :: picked). split; [now constructor | reflexivity].
Qed.

(** X17. For a text whose image nodes are all plain [img] elements,
    what [replaceImages] returns is the text with the [src] values of some
    of these nodes replaced, in the order of the nodes, and nothing else:
    it is [applyEdits] of these replacements.  When the [src] values lie
    at ascending, non-overlapping positions of the text, the result is the
    original with exactly those ranges replaced, and its length is the
    original length plus the change of each replacement. *)
Theorem img_document_is_only_edited_at_src (content parentDir result : string)
  (w w' : W) :
  Forall (fun node => Node.name node = Some "img") (imageNodes options content) ->
  replaceImages options content parentDir w = (Ok result, w') ->
  exists picked : list (Node.t * string),
    sublist (map fst picked) (imageNodes options content) /\
    result = Edited.content (applyEdits content (src_edits picked)) /\
    (edits_sorted 0 (Js.len content)
       (map (fun node => src_edit node "") (imageNodes options content)) ->
     result = spliced 0 content (src_edits picked) /\
     Js.len result = Js.len content + delta (src_edits picked)).
Proof.
  intros Himg H.
  assert (Hpicked : exists picked : list (Node.t * string),
             sublist (map fst picked) (imageNodes options content) /\
             result = Edited.content (applyEdits content (src_edits picked))).
  { destruct (replaceImages_steps content parentDir w) as [Hsame | (w0 & _ & Hrun)].
    - rewrite Hsame in H. simplify_eq.
      exists []. split; [apply sublist_nil_l | reflexivity].
    - rewrite Hrun in H. clear Hrun.
      destruct (length (imageNodes options content) =? 0)%nat.
      + run. simplify_eq. exists []. split; [apply sublist_nil_l | reflexivity].
      + run.
        destruct (foldM _ (imageNodes options content) _ w0)
          as [[processed|e] w1] eqn:Hfold; [| discriminate].
        simplify_eq.
        apply (img_nodes_become_edits _ _ Himg) in Hfold as (picked & Hsub & ->).
        now exists picked. }
  destruct Hpicked as (picked & Hsub & ->).
  exists picked. split; [exact Hsub |]. split; [reflexivity |].
  intros Hsorted.
  assert (Hs : edits_sorted 0 (Js.len content) (src_edits picked)).
  { apply edits_sorted_positions.
    apply (edits_sorted_sublist
             (map (fun node => src_edit node "") (imageNodes options content)));
      [now apply sublist_map | exact Hsorted]. }
  rewrite (applyEdits_sorted _ _ Hs). simpl.
  split; [reflexivity |]. rewrite len_spliced by (lia || exact Hs). lia.
Qed.





End Documents.

(** ** More on formatting and naming *)

Lemma startsWith_before_separator (c : ascii) (pat : string) :
  Js.includes (String c "") pat = false ->
  forall x y : string,
    Js.startsWith pat (x +:+ String c y) = Js.startsWith pat x.
Proof.
  induction pat as [|a pat IH]; intros Hc x y; [reflexivity |].
  rewrite includes_char_cons in Hc. apply orb_false_iff in Hc as [Ha Hpat].
  destruct x as [|b x].
  - rewrite app_nil. simpl. now rewrite Ha.
  - rewrite app_cons. simpl. destruct (Ascii.eqb a b); [now apply IH | reflexivity].
Qed.

Lemma includes_nil_r (pat : string) : Js.includes pat "" = Js.startsWith pat "".
Proof. simpl. apply orb_false_r. Qed.

(** A pattern without the separator is replaced after it, when it does
    not occur before it. *)
Lemma replace_after_separator (c : ascii) (pat by_ : string) :
  Js.includes (String c "") pat = false ->
  forall x y : string,
    Js.includes pat x = false ->
    Js.replace pat by_ (x +:+ String c y) = x +:+ String c (Js.replace pat by_ y).
Proof.
  intros Hc x y. induction x as [|b x IH]; intros Hx.
  - rewrite app_nil.
    pose proof (startsWith_before_separator c pat Hc "" y) as Hstart.
    rewrite app_nil in Hstart. rewrite includes_nil_r in Hx.
    simpl. simpl in Hstart. now rewrite Hstart, Hx.
  - pose proof (startsWith_before_separator c pat Hc (String b x) y) as Hstart.
    simpl in Hx. apply orb_false_iff in Hx as [Hb Hx].
    rewrite app_cons in *. simpl. rewrite Hstart, Hb, (IH Hx). reflexivity.
Qed.

Lemma replace_absent (pat by_ s : string) :
  Js.includes pat s = false -> Js.replace pat by_ s = s.
Proof.
  induction s as [|b s IH]; intros H.
  - rewrite includes_nil_r in H. simpl. now rewrite H.
  - simpl in H. apply orb_false_iff in H as [Hb Hs].
    simpl. now rewrite Hb, (IH Hs).
Qed.

(** The digits of a number hold none of the three patterns. *)
Lemma digits_hold_no_pattern (d : Decimal.uint) (tail : string) :
  Js.includes "jpg" tail = false ->
  Js.includes "png" tail = false ->
  Js.includes "jpeg" tail = false ->
  Js.includes "jpg" (NilEmpty.string_of_uint d +:+ tail) = false /\
  Js.includes "png" (NilEmpty.string_of_uint d +:+ tail) = false /\
  Js.includes "jpeg" (NilEmpty.string_of_uint d +:+ tail) = false.
Proof.
  intros H1 H2 H3.
  induction d as [|d IH|d IH|d IH|d IH|d IH|d IH|d IH|d IH|d IH|d IH];
    [now rewrite app_nil | ..];
    destruct IH as (I1 & I2 & I3);
    cbn [NilEmpty.string_of_uint]; rewrite app_cons;
    repeat split; simpl; assumption.
Qed.

Lemma breakpoint_holds_no_pattern (breakpoint : option Z) :
  Js.includes "jpg" (showOptZ breakpoint +:+ "w") = false /\
  Js.includes "png" (showOptZ breakpoint +:+ "w") = false /\
  Js.includes "jpeg" (showOptZ breakpoint +:+ "w") = false.
Proof.
  destruct breakpoint as [n|]; [| repeat split; reflexivity].
  unfold showOptZ, Js.showZ, NilZero.string_of_int, NilZero.string_of_uint.
  destruct (Z.to_int n) as [d|d]; destruct d;
    try (repeat split; reflexivity);
    try (apply digits_hold_no_pattern; reflexivity);
    rewrite app_cons;
    match goal with
    | |- context [NilEmpty.string_of_uint ?d +:+ "w"] =>
        destruct (digits_hold_no_pattern d "w" eq_refl eq_refl eq_refl)
          as (I1 & I2 & I3)
    end;
    repeat split; simpl; assumption.
Qed.

Section Names.
Context {W : Type} {E : Env W}.
Variable options : Options.

(** X20. For a URL that ends in [.jpg], [.png] or [.jpeg] and holds none
    of [jpg], [png], [jpeg] before that extension, the WebP line is the
    line of the URL with the extension replaced by [webp], whatever the
    breakpoint is. *)
Theorem srcsetLineWebp_rewrites_plain_names (v : Variant.t) (i : nat)
  (stem ext : string) :
  slashes (Variant.filename v) = stem +:+ "." +:+ ext ->
  ext = "jpg" \/ ext = "png" \/ ext = "jpeg" ->
  Js.includes "jpg" stem = false ->
  Js.includes "png" stem = false ->
  Js.includes "jpeg" stem = false ->
  srcsetLineWebp options v i
    = stem +:+ ".webp " +:+ showOptZ (breakpoints options !! i) +:+ "w".
Proof.
  intros Hurl Hext Hjpg Hpng Hjpeg.
  destruct (breakpoint_holds_no_pattern (breakpoints options !! i)) as (B1 & B2 & B3).
  unfold srcsetLineWebp. rewrite Hurl.
  set (y := showOptZ (breakpoints options !! i) +:+ "w") in *.
  assert (Hline : forall word : string,
             (stem +:+ "." +:+ word) +:+ " " +:+ showOptZ (breakpoints options !! i)
             +:+ "w" = stem +:+ String "." (word +:+ String " " y))
    by (intros; rewrite !app_assoc_s; reflexivity).
  assert (Hstep : forall pat word : string,
             Js.includes "." pat = false ->
             Js.includes " " pat = false ->
             Js.includes pat stem = false ->
             Js.includes pat y = false ->
             Js.includes pat word = false ->
             Js.replace pat "webp" (stem +:+ String "." (word +:+ String " " y))
             = stem +:+ String "." (word +:+ String " " y)).
  { intros pat word Hdot Hspace Hstem Hy Hword.
    rewrite (replace_after_separator "." pat "webp" Hdot stem _ Hstem).
    rewrite (replace_after_separator " " pat "webp" Hspace word _ Hword).
    now rewrite (replace_absent pat "webp" y Hy). }
  assert (Hhit : forall pat : string,
             Js.includes "." pat = false ->
             Js.includes pat stem = false ->
             Js.replace pat "webp" (stem +:+ String "." (pat +:+ String " " y))
             = stem +:+ String "." (Js.replace pat "webp" (pat +:+ String " " y)))
    by (intros pat Hdot Hstem;
        now rewrite (replace_after_separator "." pat "webp" Hdot stem _ Hstem)).
  rewrite Hline.
  destruct Hext as [-> | [-> | ->]].
  - rewrite (Hhit "jpg") by (reflexivity || assumption).
    change (Js.replace "jpg" "webp" ("jpg" +:+ String " " y))
      with ("webp" +:+ String " " y).
    rewrite (Hstep "png"), (Hstep "jpeg") by (reflexivity || assumption).
    reflexivity.
  - rewrite (Hstep "jpg") by (reflexivity || assumption).
    rewrite (Hhit "png") by (reflexivity || assumption).
    change (Js.replace "png" "webp" ("png" +:+ String " " y))
      with ("webp" +:+ String " " y).
    rewrite (Hstep "jpeg") by (reflexivity || assumption).
    reflexivity.
  - rewrite (Hstep "jpg"), (Hstep "png") by (reflexivity || assumption).
    rewrite (Hhit "jpeg") by (reflexivity || assumption).
    change (Js.replace "jpeg" "webp" ("jpeg" +:+ String " " y))
      with ("webp" +:+ String " " y).
    reflexivity.
Qed.

End Names.

Lemma app_cancel_r (s1 s2 t : string) : s1 +:+ t = s2 +:+ t -> s1 = s2.
Proof.
  intros H.
  assert (Hlen : String.length s1 = String.length s2).
  { apply (f_equal String.length) in H. rewrite !length_app in H. lia. }
  revert s2 H Hlen. induction s1 as [|a s1 IH]; intros [|b s2] H Hlen;
    try reflexivity; try discriminate.
  rewrite !app_cons in H. injection H as -> H. f_equal. apply IH; [exact H |].
  simpl in Hlen. lia.
Qed.

Lemma app_cancel_l (s t1 t2 : string) : s +:+ t1 = s +:+ t2 -> t1 = t2.
Proof.
  induction s as [|a s IH]; intros H; [exact H |].
  rewrite !app_cons in H. injection H as H. now apply IH.
Qed.

Lemma showZ_inj (a b : Z) : Js.showZ a = Js.showZ b -> a = b.
Proof.
  assert (Hparse : forall n : Z,
             NilZero.int_of_string (Js.showZ n) = Some (Z.to_int n)).
  { intros n. unfold Js.showZ. apply NilZero.isi; destruct n; simpl; try discriminate.
    - intros H. injection H as H. now apply DecimalPos.Unsigned.to_uint_nonnil in H.
    - intros H. injection H as H. now apply DecimalPos.Unsigned.to_uint_nonnil in H. }
  intros H. pose proof (Hparse a) as Ha. rewrite H, Hparse in Ha.
  injection Ha as Ha.
  rewrite <- (DecimalZ.of_to a), <- (DecimalZ.of_to b). now rewrite Ha.
Qed.

Section Files.
Context {W : Type} {E : Env W}.
Variable options : Options.

(** X21. The file names of two variants of one image are the same only
    when their sizes are: no two sizes of an image share an output file
    name, in the original format or in WebP. *)
Theorem getFilenameWithSize_separates_sizes (p : string) (a b : Z) :
  (getFilenameWithSize p a = getFilenameWithSize p b <-> a = b) /\
  (getWebpFilenameWithSize p a = getWebpFilenameWithSize p b <-> a = b).
Proof.
  split; (split; [| now intros ->]);
    unfold getFilenameWithSize, getWebpFilenameWithSize; intros H;
    apply app_cancel_l, app_cancel_l, app_cancel_r in H;
    now apply showZ_inj.
Qed.

Lemma mkdirp_parts_existing (parts : list string) :
  forall (created : string) (w : W),
    directories_exist created parts w ->
    foldM
      (fun created nextPart =>
         let newDir := path_join [created; nextPart] in
         let* there := gets (fs_existsSync newDir) in
         (if there then ret tt else fs_mkdirSync newDir) ;;;
         ret newDir)
      parts created w
    = (Ok (fold_left (fun created nextPart => path_join [created; nextPart])
             parts created), w).
Proof.
  induction parts as [|nextPart parts IH]; intros created w H; [reflexivity |].
  destruct H as [Hthere Hrest]. simpl. run. cbv zeta. rewrite Hthere.
  now apply IH.
Qed.

Lemma foldM_app {A B : Type} (f : A -> B -> M W A) (l1 l2 : list B) :
  forall (acc : A) (w : W),
    foldM f (l1 ++ l2) acc w
    = match foldM f l1 acc w with
      | (Ok mid, w1) => foldM f l2 mid w1
      | (Throw e, w1) => (Throw e, w1)
      end.
Proof.
  induction l1 as [|x l1 IH]; intros acc w; simpl; [reflexivity |].
  unfold bind. destruct (f acc x w) as [[a|e] w1]; [apply IH | reflexivity].
Qed.

(** X22. [mkdirp] makes only what is missing: for a path that is there
    it returns at once; for a path whose directories are all there but the
    last, it calls [mkdirSync] once, on the joined path, and an error of
    that call is the error of [mkdirp]. *)
Theorem mkdirp_makes_only_the_missing_directory (dir : string) (w : W) :
  (fs_existsSync dir w = true -> mkdirp dir w = (Ok dir, w)) /\
  (forall (parents : list string) (last : string),
      fs_existsSync dir w = false ->
      Js.split path_sep dir = parents ++ [last] ->
      directories_exist "" parents w ->
      let parent :=
        fold_left (fun created nextPart => path_join [created; nextPart]) parents "" in
      fs_existsSync (path_join [parent; last]) w = false ->
      mkdirp dir w
        = (fs_mkdirSync (path_join [parent; last]) ;;;
           ret (path_join [parent; last])) w).
Proof.
  split.
  - intros H. unfold mkdirp. run. now rewrite H.
  - intros parents last H Hsplit Hdirs parent Hlast.
    assert (Hparts : mkdirp_parts (parents ++ [last]) w
                     = (fs_mkdirSync (path_join [parent; last]) ;;;
                        ret (path_join [parent; last])) w).
    { pose proof (mkdirp_parts_existing _ _ _ Hdirs) as Hpre. cbv zeta in Hpre.
      unfold mkdirp_parts. rewrite foldM_app, Hpre.
      fold parent. simpl. run. cbv zeta. rewrite Hlast.
      now destruct (fs_mkdirSync (path_join [parent; last]) w) as [[[]|e] w1]. }
    unfold mkdirp. rewrite Hsplit. run. now rewrite H.
Qed.

End Files.

(** ** The further properties on explicit inputs *)

Lemma dynamic_src_is_skipped_witness :
  firstValue (getSrc Scenario.dynamic_img_node) = Ok Scenario.mustache /\
  Value.type Scenario.mustache = Some "MustacheTag" /\
  getProcessingPathsForNode (E := Scenario.parses []) defaults
    Scenario.dynamic_img_node "/proj/src" Scenario.fuji_world
    = (Ok (Skip ("Cannot process a dynamic value: " +:+ "MustacheTag")),
       Scenario.fuji_world).
Proof.
  split; [reflexivity |]. split; [reflexivity |].
  apply (dynamic_src_is_skipped (E := Scenario.parses []) defaults
           Scenario.dynamic_img_node Scenario.mustache "/proj/src" "MustacheTag"
           {| Edited.content := "<img src={url}>"; Edited.offset := 0 |}
           Scenario.fuji_world);
    [reflexivity | reflexivity | now left].
Defined.

Lemma static_gif :
  static_src Scenario.gif_img_node (Scenario.descriptor "logo.gif" 10 18) "logo.gif".
Proof. repeat split; (reflexivity || discriminate). Qed.

Lemma static_remote :
  static_src Scenario.remote_img_node
    (Scenario.descriptor Scenario.remote_url 10 35) Scenario.remote_url.
Proof. repeat split; (reflexivity || discriminate). Qed.

Lemma static_fuji :
  static_src Scenario.fuji_img_node (Scenario.descriptor "fuji.jpg" 10 18) "fuji.jpg".
Proof. repeat split; (reflexivity || discriminate). Qed.

Lemma disallowed_extension_is_skipped_witness :
  static_src Scenario.gif_img_node (Scenario.descriptor "logo.gif" 10 18) "logo.gif" /\
  Node.name Scenario.gif_img_node = Some "img" /\
  fileHasCorrectExtension "logo.gif" (imgTagExtensions defaults) = false /\
  getProcessingPathsForNode (E := Scenario.parses []) defaults
    Scenario.gif_img_node "/proj/src" Scenario.fuji_world
    = (Ok (Skip ("The <img> tag was passed a file (" +:+ "logo.gif" +:+
                 ") whose extension is not one of " +:+
                 Js.join ", " (imgTagExtensions defaults))),
       Scenario.fuji_world).
Proof.
  split; [exact static_gif |]. split; [reflexivity |]. split; [reflexivity |].
  apply (proj1 (disallowed_extension_is_skipped (E := Scenario.parses []) defaults
                  Scenario.gif_img_node _ "/proj/src" "logo.gif" Scenario.fuji_world
                  static_gif));
    reflexivity.
Defined.

Lemma external_src_is_skipped_when_remote_is_off_witness :
  static_src Scenario.remote_img_node
    (Scenario.descriptor Scenario.remote_url 10 35) Scenario.remote_url /\
  passes_gates Scenario.without_remote Scenario.remote_img_node Scenario.remote_url /\
  IS_EXTERNAL Scenario.remote_url = true /\
  optimizeRemote Scenario.without_remote = false /\
  getProcessingPathsForNode (E := Scenario.parses []) Scenario.without_remote
    Scenario.remote_img_node "/proj/src" Scenario.world_with_remote_image
    = (Ok (Skip ("The `src` is external: " +:+ Scenario.remote_url)),
       Scenario.world_with_remote_image).
Proof.
  assert (Hgates : passes_gates Scenario.without_remote Scenario.remote_img_node
                     Scenario.remote_url)
    by (split; intros _; reflexivity).
  split; [exact static_remote |]. split; [exact Hgates |].
  split; [reflexivity |]. split; [reflexivity |].
  apply (external_src_is_skipped_when_remote_is_off (E := Scenario.parses [])
           Scenario.without_remote Scenario.remote_img_node _ "/proj/src"
           Scenario.remote_url Scenario.world_with_remote_image
           static_remote Hgates);
    reflexivity.
Defined.

Lemma failed_download_is_skipped_witness :
  static_src Scenario.remote_img_node
    (Scenario.descriptor Scenario.remote_url 10 35) Scenario.remote_url /\
  passes_gates defaults Scenario.remote_img_node Scenario.remote_url /\
  IS_EXTERNAL Scenario.remote_url = true /\
  optimizeRemote defaults = true /\
  downloadImage (E := Scenario.parses []) Scenario.remote_url (sourceDir defaults)
    Scenario.fuji_world = (Throw "Error: Network Error", Scenario.fuji_world) /\
  getProcessingPathsForNode (E := Scenario.parses []) defaults
    Scenario.remote_img_node "/proj/src" Scenario.fuji_world
    = (Ok (Skip ("The url of is not an image: " +:+ Scenario.remote_url)),
       console_error (Env := Scenario.parses []) "Error: Network Error"
         Scenario.fuji_world).
Proof.
  assert (Hgates : passes_gates defaults Scenario.remote_img_node Scenario.remote_url)
    by (split; intros _; reflexivity).
  assert (Hdown : downloadImage (E := Scenario.parses []) Scenario.remote_url
                    (sourceDir defaults) Scenario.fuji_world
                  = (Throw "Error: Network Error", Scenario.fuji_world))
    by (vm_compute; reflexivity).
  split; [exact static_remote |]. split; [exact Hgates |].
  split; [reflexivity |]. split; [reflexivity |]. split; [exact Hdown |].
  apply (proj1 (failed_download_is_skipped (E := Scenario.parses []) defaults
                  Scenario.remote_img_node _ "/proj/src" Scenario.remote_url
                  Scenario.fuji_world Scenario.fuji_world
                  static_remote Hgates eq_refl eq_refl)
           "Error: Network Error" Hdown).
Defined.

Lemma local_src_is_resolved_parent_first_witness :
  static_src Scenario.fuji_img_node (Scenario.descriptor "fuji.jpg" 10 18) "fuji.jpg" /\
  passes_gates defaults Scenario.fuji_img_node "fuji.jpg" /\
  IS_EXTERNAL "fuji.jpg" = false /\
  fs_existsSync (Env := Scenario.parses [])
    (path_resolve (Env := Scenario.parses []) ["/proj/src"; "fuji.jpg"])
    Scenario.fuji_world = true /\
  getProcessingPathsForNode (E := Scenario.parses []) defaults
    Scenario.fuji_img_node "/proj/src" Scenario.fuji_world
    = willProcess (E := Scenario.parses []) defaults
        (path_resolve (Env := Scenario.parses []) ["/proj/src"; "fuji.jpg"])
        Scenario.fuji_world.
Proof.
  assert (Hgates : passes_gates defaults Scenario.fuji_img_node "fuji.jpg")
    by (split; intros _; reflexivity).
  split; [exact static_fuji |]. split; [exact Hgates |].
  split; [reflexivity |]. split; [vm_compute; reflexivity |].
  apply (proj1 (local_src_is_resolved_parent_first (E := Scenario.parses []) defaults
                  Scenario.fuji_img_node _ "/proj/src" "fuji.jpg" Scenario.fuji_world
                  static_fuji Hgates eq_refl)).
  vm_compute. reflexivity.
Defined.

Lemma processed_src_is_an_existing_file_witness :
  exists w' : Posix.World,
    getProcessingPathsForNode (E := Scenario.parses []) defaults
      Scenario.fuji_img_node "/proj/src" Scenario.fuji_world
    = (Ok (Process (Scenario.paths_of "/proj/src/fuji.jpg")), w') /\
    exists (value : Value.t) (data : string) (w1 : Posix.World),
      static_src Scenario.fuji_img_node value data /\
      (inPath (Scenario.paths_of "/proj/src/fuji.jpg")
       = path_resolve (Env := Scenario.parses []) ["/proj/src"; data] \/
       inPath (Scenario.paths_of "/proj/src/fuji.jpg")
       = path_resolve (Env := Scenario.parses []) [sourceDir defaults; data]) /\
      fs_existsSync (Env := Scenario.parses [])
        (inPath (Scenario.paths_of "/proj/src/fuji.jpg")) w1 = true /\
      (IS_EXTERNAL data = false -> w1 = Scenario.fuji_world) /\
      Scenario.paths_of "/proj/src/fuji.jpg"
      = getPathsObject (E := Scenario.parses []) defaults
          (inPath (Scenario.paths_of "/proj/src/fuji.jpg")) /\
      willProcess (E := Scenario.parses []) defaults
        (inPath (Scenario.paths_of "/proj/src/fuji.jpg")) w1
      = (Ok (Process (Scenario.paths_of "/proj/src/fuji.jpg")), w').
Proof.
  eexists. split; [vm_compute; reflexivity |].
  apply (processed_src_is_an_existing_file (E := Scenario.parses []) defaults
           Scenario.fuji_img_node "/proj/src").
  vm_compute. reflexivity.
Defined.

Lemma src_without_descriptor_throws_witness :
  getProp Scenario.valueless_img_node "src" = Some ValTrue /\
  exists e : string,
    getProcessingPathsForNode (E := Scenario.parses []) defaults
      Scenario.valueless_img_node "/proj/src" Scenario.fuji_world
    = (Throw e, Scenario.fuji_world) /\
    replaceInImg (E := Scenario.parses []) defaults
      {| Edited.content := "<img src>"; Edited.offset := 0 |}
      Scenario.valueless_img_node "/proj/src" Scenario.fuji_world
    = (Throw e, Scenario.fuji_world) /\
    replaceInComponent (E := Scenario.parses []) defaults
      {| Edited.content := "<img src>"; Edited.offset := 0 |}
      Scenario.valueless_img_node "/proj/src" Scenario.fuji_world
    = (Throw e, Scenario.fuji_world).
Proof.
  split; [reflexivity |].
  apply (src_without_descriptor_throws (E := Scenario.parses []) defaults
           Scenario.valueless_img_node).
  now left.
Defined.

Lemma getProp_first_attribute_wins_witness :
  Node.attributes Scenario.double_src_node
    = Some ([] ++ Scenario.src_attribute (ValList [Scenario.descriptor "a.jpg" 10 15])
               :: [ {| Attribute.name := "alt";
                       Attribute.value := Scenario.text "logo" 22 26 |};
                    Scenario.src_attribute
                      (ValList [Scenario.descriptor "b.jpg" 33 38]) ]) /\
  getProp Scenario.double_src_node "src"
    = Some (ValList [Scenario.descriptor "a.jpg" 10 15]).
Proof.
  split; [reflexivity |].
  apply (proj1 (getProp_first_attribute_wins Scenario.double_src_node "src")
           []
           [ {| Attribute.name := "alt"; Attribute.value := Scenario.text "logo" 22 26 |};
             Scenario.src_attribute (ValList [Scenario.descriptor "b.jpg" 33 38]) ]
           (Scenario.src_attribute (ValList [Scenario.descriptor "a.jpg" 10 15])));
    [reflexivity | constructor | reflexivity].
Defined.


Lemma downloadImage_names_file_after_content_type_witness :
  fs_readdirSync (Env := Scenario.parses []) "./src/" Scenario.world_with_remote_image
    = (Ok ["routes"], Scenario.world_with_remote_image) /\
  Forall (fun name =>
            Js.startsWith (sha1_hex (Env := Scenario.parses []) Scenario.remote_url) name
            = false) ["routes"] /\
  axios_head (Env := Scenario.parses []) Scenario.remote_url
    Scenario.world_with_remote_image
    = (Ok (Some ("image/" +:+ "png")), Scenario.world_with_remote_image) /\
  Js.includes "/" "png" = false /\
  downloadImage (E := Scenario.parses []) Scenario.remote_url "./src/"
    Scenario.world_with_remote_image
  = (axios_download (Env := Scenario.parses []) Scenario.remote_url
       (path_resolve (Env := Scenario.parses [])
          ["./src/";
           sha1_hex (Env := Scenario.parses []) Scenario.remote_url +:+ "." +:+ "png"]) ;;;
     ret (Some (sha1_hex (Env := Scenario.parses []) Scenario.remote_url
                +:+ "." +:+ "png")))
      Scenario.world_with_remote_image.
Proof.
  split; [vm_compute; reflexivity |].
  split; [repeat constructor |].
  split; [vm_compute; reflexivity |]. split; [reflexivity |].
  apply (downloadImage_names_file_after_content_type (E := Scenario.parses [])
           Scenario.remote_url "./src/" "png" ["routes"]
           Scenario.world_with_remote_image Scenario.world_with_remote_image);
    [vm_compute; reflexivity | repeat constructor | vm_compute; reflexivity
    | reflexivity].
Defined.

Lemma downloadImage_refuses_other_content_witness :
  fs_readdirSync (Env := Scenario.parses []) "./src/" Scenario.world_serving_html
    = (Ok ["routes"], Scenario.world_serving_html) /\
  Forall (fun name =>
            Js.startsWith (sha1_hex (Env := Scenario.parses []) Scenario.remote_url) name
            = false) ["routes"] /\
  axios_head (Env := Scenario.parses []) Scenario.remote_url Scenario.world_serving_html
    = (Ok (Some ("text" +:+ String "/" "html")), Scenario.world_serving_html) /\
  downloadImage (E := Scenario.parses []) Scenario.remote_url "./src/"
    Scenario.world_serving_html
  = (Ok None, Scenario.world_serving_html).
Proof.
  split; [vm_compute; reflexivity |].
  split; [repeat constructor |].
  split; [vm_compute; reflexivity |].
  apply (proj1 (downloadImage_refuses_other_content (E := Scenario.parses [])
                  Scenario.remote_url "./src/" ["routes"]
                  Scenario.world_serving_html Scenario.world_serving_html
                  Scenario.world_serving_html
                  ltac:(vm_compute; reflexivity) ltac:(repeat constructor))
           "text" "html");
    [vm_compute; reflexivity | reflexivity | discriminate].
Defined.

Lemma insert_can_be_undone_witness :
  0 <= 10 + 0 /\ 10 <= 18 /\ 18 + 0 <= Js.len "<img src='fuji.jpg' />" /\
  Js.substr "<img src='fuji.jpg' />" (10 + 0) (Some (18 - 10)) = "fuji.jpg" /\
  Edited.content (insert "<img src='fuji.jpg' />" "g/fuji.jpg" 10 18 0)
    = "<img src='g/fuji.jpg' />" /\
  (let cut := Js.substr "<img src='fuji.jpg' />" (10 + 0) (Some (18 - 10)) in
   let edited := insert "<img src='fuji.jpg' />" "g/fuji.jpg" 10 18 0 in
   insert "<img src='fuji.jpg' />" cut 10 18 0
     = {| Edited.content := "<img src='fuji.jpg' />"; Edited.offset := 0 |} /\
   insert (Edited.content edited) cut 10 (10 + Js.len "g/fuji.jpg") 0
     = {| Edited.content := "<img src='fuji.jpg' />";
          Edited.offset := 0 + (18 - 10) - Js.len "g/fuji.jpg" |}).
Proof.
  split; [lia |]. split; [lia |]. split; [vm_compute; congruence |].
  split; [reflexivity |]. split; [reflexivity |].
  apply (insert_can_be_undone "<img src='fuji.jpg' />" "g/fuji.jpg" 10 18 0);
    [lia | lia | vm_compute; congruence].
Defined.

Lemma createSizes_returns_named_variants_witness :
  exists (variants : list Variant.t) (w' : Posix.World),
    createSizes (E := Scenario.parses []) defaults
      (Scenario.paths_of "/proj/src/fuji.jpg") Scenario.fuji_world
    = (Ok variants, w') /\
    map Variant.filename variants = ["g/fuji-400.jpg"; "g/fuji-800.jpg"] /\
    variants <> [] /\
    Forall (fun v => Variant.filename v
                     = r_outUrl (getResizePaths (E := Scenario.parses [])
                                   (Scenario.paths_of "/proj/src/fuji.jpg")
                                   (Variant.size v))) variants.
Proof.
  eexists _, _.
  split; [vm_compute; reflexivity |]. split; [reflexivity |].
  eapply (createSizes_returns_named_variants (E := Scenario.parses []) defaults
            (Scenario.paths_of "/proj/src/fuji.jpg") Scenario.fuji_world).
  vm_compute. reflexivity.
Defined.

Lemma optimize_inlines_below_threshold_witness :
  exists w' : Posix.World,
    optimize (E := Scenario.parses []) defaults
      (Scenario.paths_of "/proj/src/fuji.jpg") Scenario.fuji_world
    = (Ok "data:image/png;base64,pixels:undefined", w') /\
    exists (size : Z) (w1 : Posix.World),
      fs_statSync_size (Env := Scenario.parses [])
        (inPath (Scenario.paths_of "/proj/src/fuji.jpg")) Scenario.fuji_world
      = (Ok size, w1) /\
      ((inlineBelow defaults <> 0 /\ size < inlineBelow defaults /\
        getBase64 (E := Scenario.parses [])
          (inPath (Scenario.paths_of "/proj/src/fuji.jpg")) true w1
        = (Ok "data:image/png;base64,pixels:undefined", w') /\
        Js.startsWith "data:image/png;base64,"
          "data:image/png;base64,pixels:undefined" = true)
       \/
       ((inlineBelow defaults = 0 \/ inlineBelow defaults <= size) /\
        "data:image/png;base64,pixels:undefined"
        = outUrl (Scenario.paths_of "/proj/src/fuji.jpg"))).
Proof.
  eexists. split; [vm_compute; reflexivity |].
  apply (optimize_inlines_below_threshold (E := Scenario.parses []) defaults
           (Scenario.paths_of "/proj/src/fuji.jpg") Scenario.fuji_world).
  vm_compute. reflexivity.
Defined.

Lemma replaceInImg_only_rewrites_src_witness :
  exists (edited' : Edited) (w' : Posix.World),
    replaceInImg (E := Scenario.parses []) defaults
      {| Edited.content := Scenario.fuji_img_markup; Edited.offset := 0 |}
      Scenario.fuji_img_node "/proj/src" Scenario.fuji_world
    = (Ok edited', w') /\
    Edited.content edited' = "<img src='data:image/png;base64,pixels:undefined' />" /\
    (edited' = {| Edited.content := Scenario.fuji_img_markup; Edited.offset := 0 |} \/
     exists (paths : Paths) (uri : string) (w1 w2 : Posix.World),
       getProcessingPathsForNode (E := Scenario.parses []) defaults
         Scenario.fuji_img_node "/proj/src" Scenario.fuji_world
       = (Ok (Process paths), w1) /\
       optimize (E := Scenario.parses []) defaults paths w1 = (Ok uri, w2) /\
       edited'
       = applyEditsFrom {| Edited.content := Scenario.fuji_img_markup;
                           Edited.offset := 0 |}
           [src_edit Scenario.fuji_img_node uri]).
Proof.
  eexists _, _.
  split; [vm_compute; reflexivity |]. split; [reflexivity |].
  eapply (proj2 (replaceInImg_only_rewrites_src (E := Scenario.parses []) defaults
                   {| Edited.content := Scenario.fuji_img_markup; Edited.offset := 0 |}
                   Scenario.fuji_img_node "/proj/src" Scenario.fuji_world _)).
  vm_compute. reflexivity.
Defined.

Lemma pair_of_fst {A B : Type} (x : A * B) (a : A) : fst x = a -> x = (a, snd x).
Proof. intros <-. apply surjective_pairing. Qed.

Lemma replaceInComponent_rewrites_src_and_next_character_witness :
  exists (variants : list Variant.t) (w1 w2 w3 : Posix.World)
         (first : Variant.t) (edited' : Edited),
    getProcessingPathsForNode (E := Scenario.parses []) defaults
      Scenario.fuji_component_node "/proj/src" Scenario.fuji_world
    = (Ok (Process (Scenario.paths_of "/proj/src/fuji.jpg")), w1) /\
    createSizes (E := Scenario.parses []) defaults
      (Scenario.paths_of "/proj/src/fuji.jpg") w1 = (Ok variants, w2) /\
    getTrace (E := Scenario.parses []) defaults "/proj/src/fuji.jpg" w2
    = (Ok "data:image/svg+xml;base64,<svg>pixels:500</svg>", w3) /\
    Scenario.fuji_component_markup
    = "<Image src='" +:+ "fuji.jpg" +:+ String "'" (String " " "/>") /\
    head variants = Some first /\
    replaceInComponent (E := Scenario.parses []) defaults
      {| Edited.content := Scenario.fuji_component_markup; Edited.offset := 0 |}
      Scenario.fuji_component_node "/proj/src" Scenario.fuji_world
    = (Ok edited', w3) /\
    Edited.content edited'
    = "<Image src='data:image/svg+xml;base64,<svg>pixels:500</svg>' srcset='g/fuji-400.jpg 375w,g/fuji-800.jpg 768w' ratio='50%' srcsetWebp='g/fuji-400.webp 375w,g/fuji-800.webp 768w' />" /\
    Edited.content edited'
    = "<Image src='" +:+ "data:image/svg+xml;base64,<svg>pixels:500</svg>" +:+
      String "'"
        ((" srcset='" +:+
          srcSetValue variants (srcsetLine (E := Scenario.parses []) defaults) +:+ "'")
         +:+
         (" ratio='" +:+
          ratio_percent (Env := Scenario.parses [])
            (Variant.width first) (Variant.height first) +:+ "%'") +:+
         (if webp defaults
          then " srcsetWebp='" +:+
               srcSetValue variants (srcsetLineWebp (E := Scenario.parses []) defaults)
               +:+ "' "
          else " ") +:+
         "/>").
Proof.
  pose (w1 := snd (getProcessingPathsForNode (E := Scenario.parses []) defaults
                     Scenario.fuji_component_node "/proj/src" Scenario.fuji_world)).
  pose (sized := createSizes (E := Scenario.parses []) defaults
                   (Scenario.paths_of "/proj/src/fuji.jpg") w1).
  pose (variants := match fst sized with Ok l => l | Throw _ => [] end).
  pose (w2 := snd sized).
  pose (w3 := snd (getTrace (E := Scenario.parses []) defaults "/proj/src/fuji.jpg" w2)).
  assert (Hres : getProcessingPathsForNode (E := Scenario.parses []) defaults
                   Scenario.fuji_component_node "/proj/src" Scenario.fuji_world
                 = (Ok (Process (Scenario.paths_of "/proj/src/fuji.jpg")), w1))
    by (apply pair_of_fst; vm_compute; reflexivity).
  assert (Hsizes : createSizes (E := Scenario.parses []) defaults
                     (Scenario.paths_of "/proj/src/fuji.jpg") w1 = (Ok variants, w2))
    by (apply pair_of_fst; vm_compute; reflexivity).
  assert (Hplace : getTrace (E := Scenario.parses []) defaults "/proj/src/fuji.jpg" w2
                   = (Ok "data:image/svg+xml;base64,<svg>pixels:500</svg>", w3))
    by (apply pair_of_fst; vm_compute; reflexivity).
  destruct (replaceInComponent_rewrites_src_and_next_character
              (E := Scenario.parses []) defaults
              {| Edited.content := Scenario.fuji_component_markup; Edited.offset := 0 |}
              Scenario.fuji_component_node "/proj/src"
              (Scenario.paths_of "/proj/src/fuji.jpg") variants
              (Scenario.descriptor "fuji.jpg" 12 20)
              "data:image/svg+xml;base64,<svg>pixels:500</svg>"
              "<Image src='" "fuji.jpg" "/>" "'"%char " "%char
              Scenario.fuji_world w1 w2 w3
              Hres Hsizes Hplace eq_refl eq_refl eq_refl eq_refl)
    as (first & edited' & Hfirst & Hrun & Hcontent & Hoffset).
  exists variants, w1, w2, w3, first, edited'.
  repeat split; try assumption; try reflexivity.
  assert (Hcheck : match fst (replaceInComponent (E := Scenario.parses []) defaults
                                {| Edited.content := Scenario.fuji_component_markup;
                                   Edited.offset := 0 |}
                                Scenario.fuji_component_node "/proj/src"
                                Scenario.fuji_world) with
                   | Ok e => Edited.content e
                   | Throw _ => ""
                   end
                   = "<Image src='data:image/svg+xml;base64,<svg>pixels:500</svg>' srcset='g/fuji-400.jpg 375w,g/fuji-800.jpg 768w' ratio='50%' srcsetWebp='g/fuji-400.webp 375w,g/fuji-800.webp 768w' />")
    by (vm_compute; reflexivity).
  rewrite Hrun in Hcheck. exact Hcheck.
Defined.

Lemma img_document_is_only_edited_at_src_witness :
  Forall (fun node => Node.name node = Some "img")
    (imageNodes (E := Scenario.parses [Scenario.fragment; Scenario.fuji_img_node])
       defaults Scenario.fuji_img_markup) /\
  exists w' : Posix.World,
    replaceImages (E := Scenario.parses [Scenario.fragment; Scenario.fuji_img_node])
      defaults Scenario.fuji_img_markup "/proj/src" Scenario.fuji_world
    = (Ok "<img src='data:image/png;base64,pixels:undefined' />", w') /\
    edits_sorted 0 (Js.len Scenario.fuji_img_markup)
      (map (fun node => src_edit node "")
         (imageNodes (E := Scenario.parses [Scenario.fragment; Scenario.fuji_img_node])
            defaults Scenario.fuji_img_markup)) /\
    exists picked : list (Node.t * string),
      sublist (map fst picked)
        (imageNodes (E := Scenario.parses [Scenario.fragment; Scenario.fuji_img_node])
           defaults Scenario.fuji_img_markup) /\
      "<img src='data:image/png;base64,pixels:undefined' />"
      = Edited.content (applyEdits Scenario.fuji_img_markup (src_edits picked)) /\
      (edits_sorted 0 (Js.len Scenario.fuji_img_markup)
         (map (fun node => src_edit node "")
            (imageNodes (E := Scenario.parses [Scenario.fragment; Scenario.fuji_img_node])
               defaults Scenario.fuji_img_markup)) ->
       "<img src='data:image/png;base64,pixels:undefined' />"
       = spliced 0 Scenario.fuji_img_markup (src_edits picked) /\
       Js.len "<img src='data:image/png;base64,pixels:undefined' />"
       = Js.len Scenario.fuji_img_markup + delta (src_edits picked)).
Proof.
  assert (Himg : Forall (fun node => Node.name node = Some "img")
                   (imageNodes
                      (E := Scenario.parses [Scenario.fragment; Scenario.fuji_img_node])
                      defaults Scenario.fuji_img_markup))
    by (repeat constructor).
  split; [exact Himg |].
  eexists. split; [apply pair_of_fst; vm_compute; reflexivity |].
  split; [vm_compute; repeat split; congruence |].
  eapply (img_document_is_only_edited_at_src
            (E := Scenario.parses [Scenario.fragment; Scenario.fuji_img_node])
            defaults Scenario.fuji_img_markup "/proj/src" _ Scenario.fuji_world _ Himg).
  apply pair_of_fst. vm_compute. reflexivity.
Defined.



Lemma srcsetLineWebp_rewrites_plain_names_witness :
  slashes (E := Scenario.parses [])
    (Variant.filename (Scenario.variant_of "/proj/src/fuji.jpg" 400 400 200))
  = "g/fuji-400" +:+ "." +:+ "jpg" /\
  Js.includes "jpg" "g/fuji-400" = false /\
  Js.includes "png" "g/fuji-400" = false /\
  Js.includes "jpeg" "g/fuji-400" = false /\
  srcsetLineWebp (E := Scenario.parses []) defaults
    (Scenario.variant_of "/proj/src/fuji.jpg" 400 400 200) 0
  = "g/fuji-400" +:+ ".webp " +:+ showOptZ (breakpoints defaults !! 0%nat) +:+ "w".
Proof.
  split; [vm_compute; reflexivity |].
  split; [reflexivity |]. split; [reflexivity |]. split; [reflexivity |].
  apply (srcsetLineWebp_rewrites_plain_names (E := Scenario.parses []) defaults
           (Scenario.variant_of "/proj/src/fuji.jpg" 400 400 200) 0 "g/fuji-400" "jpg");
    [vm_compute; reflexivity | now left | reflexivity ..].
Defined.

Lemma mkdirp_makes_only_the_missing_directory_witness :
  fs_existsSync (Env := Scenario.parses []) "static/g" Scenario.world_without_output_dir
    = false /\
  Js.split (path_sep (Env := Scenario.parses [])) "static/g" = ["static"] ++ ["g"] /\
  directories_exist (E := Scenario.parses []) "" ["static"]
    Scenario.world_without_output_dir /\
  fs_existsSync (Env := Scenario.parses [])
    (path_join (Env := Scenario.parses []) ["static"; "g"])
    Scenario.world_without_output_dir = false /\
  mkdirp (E := Scenario.parses []) "static/g" Scenario.world_without_output_dir
  = (fs_mkdirSync (Env := Scenario.parses []) "static/g" ;;; ret "static/g")
      Scenario.world_without_output_dir /\
  fst (mkdirp (E := Scenario.parses []) "static/g" Scenario.world_without_output_dir)
  = Ok "static/g".
Proof.
  assert (Hdirs : directories_exist (E := Scenario.parses []) "" ["static"]
                    Scenario.world_without_output_dir)
    by (split; [vm_compute; reflexivity | exact I]).
  split; [vm_compute; reflexivity |]. split; [reflexivity |].
  split; [exact Hdirs |]. split; [vm_compute; reflexivity |].
  split; [| vm_compute; reflexivity].
  apply (proj2 (mkdirp_makes_only_the_missing_directory (E := Scenario.parses [])
                  "static/g" Scenario.world_without_output_dir)
           ["static"] "g");
    [vm_compute; reflexivity | reflexivity | exact Hdirs | vm_compute; reflexivity].
Defined.

(** ** Reuse of generated files *)

Section Reuse.
Context {W : Type} {E : Env W}.
Variable options : Options.

(** X23. When the files of a size are already there (the WebP one, unless
    [webp] is off, and the one in the original format), [resize] calls no
    encoder: the world is the one that [ensureOutDirExists] left, and the
    variant carries the natural width and height of the source, not those
    of the resized file. *)
Theorem resize_reuses_existing_files (size : Z) (paths : Paths) (meta : Meta.t)
  (w w1 : W) :
  size <= Meta.width meta ->
  ensureOutDirExists options (outDir paths) w = (Ok tt, w1) ->
  (webp options = false \/
   fs_existsSync (r_outPathWebp (getResizePaths paths size)) w1 = true) ->
  fs_existsSync (r_outPath (getResizePaths paths size)) w1 = true ->
  resize options size paths (Some meta) w
    = (Ok (Some {| Variant.width := Meta.width meta;
                   Variant.height := Meta.height meta;
                   Variant.size := size;
                   Variant.filename := r_outUrl (getResizePaths paths size) |}), w1).
Proof.
  intros Hfit Hdir Hwebp Hout. unfold resize. run. cbv zeta.
  assert (Hwidth : (Meta.width meta <? size) = false) by lia.
  rewrite Hwidth, Hdir.
  destruct Hwebp as [-> | Hthere].
  - now rewrite Hout.
  - destruct (webp options); [rewrite Hthere |]; now rewrite Hout.
Qed.

End Reuse.

Lemma resize_reuses_existing_files_witness :
  400 <= Meta.width {| Meta.width := 1000; Meta.height := 500; Meta.size := None |} /\
  ensureOutDirExists (E := Scenario.parses []) defaults
    (outDir (Scenario.paths_of "/proj/src/fuji.jpg")) Scenario.world_with_cached_variant
  = (Ok tt, Scenario.world_with_cached_variant) /\
  fs_existsSync (Env := Scenario.parses [])
    (r_outPathWebp
       (getResizePaths (E := Scenario.parses []) (Scenario.paths_of "/proj/src/fuji.jpg")
          400)) Scenario.world_with_cached_variant = true /\
  fs_existsSync (Env := Scenario.parses [])
    (r_outPath
       (getResizePaths (E := Scenario.parses []) (Scenario.paths_of "/proj/src/fuji.jpg")
          400)) Scenario.world_with_cached_variant = true /\
  resize (E := Scenario.parses []) defaults 400 (Scenario.paths_of "/proj/src/fuji.jpg")
    (Some {| Meta.width := 1000; Meta.height := 500; Meta.size := None |})
    Scenario.world_with_cached_variant
  = (Ok (Some {| Variant.width := 1000; Variant.height := 500; Variant.size := 400;
                 Variant.filename :=
                   r_outUrl (getResizePaths (E := Scenario.parses [])
                               (Scenario.paths_of "/proj/src/fuji.jpg") 400) |}),
     Scenario.world_with_cached_variant).
Proof.
  split; [simpl; lia |].
  split; [vm_compute; reflexivity |].
  split; [vm_compute; reflexivity |].
  split; [vm_compute; reflexivity |].
  apply (resize_reuses_existing_files (E := Scenario.parses []) defaults 400
           (Scenario.paths_of "/proj/src/fuji.jpg")
           {| Meta.width := 1000; Meta.height := 500; Meta.size := None |}
           Scenario.world_with_cached_variant Scenario.world_with_cached_variant);
    [simpl; lia | vm_compute; reflexivity | right; vm_compute; reflexivity
    | vm_compute; reflexivity].
Defined.
